(** * setup-goplus: version resolution of the gop installer

    A shallow embedding of [install/install.go] (package [install] of
    github.com/goplus/setup-goplus) and the properties of its version
    resolution: [isValidVersion], [sortVersions], [maxSatisfying],
    [checkVersion], [resolveVersionInput], [parseGopVersionFile] and the
    orchestrator [InstallGop].

    Go strings are byte strings; they are modelled by [string] (a list of
    8-bit [ascii] characters).  A Go result [(T, error)] is a value of
    [res T]; output and calls to the outside are recorded as a list of
    events. *)

From Stdlib Require Import String Ascii List Bool ZArith NArith Lia.
From Stdlib Require Import Permutation Sorted DecimalString DecimalN.
Import ListNotations.
Open Scope string_scope.

(** * Part I: the program *)

(** ** The parts of Go's [strings] package the program uses *)

Module strings.

(** [s] without the leading [prefix], or [None] when [s] does not start
    with it (Go: [strings.CutPrefix]). *)
Fixpoint CutPrefix (s prefix : string) {struct prefix} : option string :=
  match prefix with
  | EmptyString => Some s
  | String p prefix' =>
      match s with
      | EmptyString => None
      | String c s' => if Ascii.eqb c p then CutPrefix s' prefix' else None
      end
  end.

Definition HasPrefix (s prefix : string) : bool :=
  match CutPrefix s prefix with Some _ => true | None => false end.

(** [strings.TrimPrefix]: the prefix is removed once, if present. *)
Definition TrimPrefix (s prefix : string) : string :=
  match CutPrefix s prefix with Some r => r | None => s end.

(** [strings.Split(s, sep)] for a one-byte separator, the only kind the
    program passes ("-" and "."): the pieces between the occurrences of
    [sep]; always at least one piece. *)
Fixpoint Split (s : string) (sep : ascii) : list string :=
  match s with
  | EmptyString => [EmptyString]
  | String c s' =>
      if Ascii.eqb c sep then EmptyString :: Split s' sep
      else match Split s' sep with
           | p :: ps => String c p :: ps
           | [] => [String c EmptyString]
           end
  end.

(** The white space of [unicode.IsSpace], as UTF-8 byte sequences:
    U+0009..U+000D, U+0020, U+0085, U+00A0, U+1680, U+2000..U+200A,
    U+2028, U+2029, U+202F, U+205F, U+3000. *)
Definition asciiSpace (c : ascii) : bool :=
  let n := N_of_ascii c in
  ((9 <=? n) && (n <=? 13) || (n =? 32))%N.

Definition space2 (a b : ascii) : bool :=
  ((N_of_ascii a =? 194) && ((N_of_ascii b =? 133) || (N_of_ascii b =? 160)))%N.

Definition space3 (a b c : ascii) : bool :=
  let x := N_of_ascii a in
  let y := N_of_ascii b in
  let z := N_of_ascii c in
  ((x =? 225) && (y =? 154) && (z =? 128)
   || (x =? 226) && (y =? 128)
      && ((128 <=? z) && (z <=? 138) || (z =? 168) || (z =? 169) || (z =? 175))
   || (x =? 226) && (y =? 129) && (z =? 159)
   || (x =? 227) && (y =? 128) && (z =? 128))%N.

(** Leading white space removed; [fuel] bounds the number of runes. *)
Fixpoint trimLeft (fuel : nat) (s : list ascii) : list ascii :=
  match fuel with
  | O => s
  | S fuel' =>
      match s with
      | a :: s1 =>
          if asciiSpace a then trimLeft fuel' s1
          else match s1 with
               | b :: s2 =>
                   if space2 a b then trimLeft fuel' s2
                   else match s2 with
                        | c :: s3 =>
                            if space3 a b c then trimLeft fuel' s3 else s
                        | [] => s
                        end
               | [] => s
               end
      | [] => s
      end
  end.

(** Trailing white space removed, on the reversed byte sequence. *)
Fixpoint trimRightRev (fuel : nat) (r : list ascii) : list ascii :=
  match fuel with
  | O => r
  | S fuel' =>
      match r with
      | a :: r1 =>
          if asciiSpace a then trimRightRev fuel' r1
          else match r1 with
               | b :: r2 =>
                   if space2 b a then trimRightRev fuel' r2
                   else match r2 with
                        | c :: r3 =>
                            if space3 c b a then trimRightRev fuel' r3 else r
                        | [] => r
                        end
               | [] => r
               end
      | [] => r
      end
  end.

(** [strings.TrimSpace]: leading and trailing white space removed. *)
Definition TrimSpace (s : string) : string :=
  let l := trimLeft (String.length s) (list_ascii_of_string s) in
  string_of_list_ascii (rev (trimRightRev (List.length l) (rev l))).

End strings.

(** ** Scanning text *)

Definition isDigit (c : ascii) : bool :=
  let n := N_of_ascii c in ((48 <=? n) && (n <=? 57))%N.

Fixpoint containsOnly (s : string) (ok : ascii -> bool) : bool :=
  match s with
  | EmptyString => true
  | String c s' => ok c && containsOnly s' ok
  end.

(** The longest prefix of characters that satisfy [ok], and what
    follows it. *)
Fixpoint span (ok : ascii -> bool) (s : string) : string * string :=
  match s with
  | EmptyString => (EmptyString, EmptyString)
  | String c s' =>
      if ok c then let (a, r) := span ok s' in (String c a, r)
      else (EmptyString, s)
  end.

(** The longest prefix of digits: [[0-9]*]. *)
Definition spanDigits : string -> string * string := span isDigit.

(** The longest prefix made of non-empty runs of [ok] characters joined
    by single dots, [ok+(\.ok+)*], and what follows it; the prefix is
    empty when the text does not start with an [ok] character. *)
Fixpoint spanDotted (ok : ascii -> bool) (s : string) : string * string :=
  match s with
  | EmptyString => (EmptyString, EmptyString)
  | String c s' =>
      if ok c then
        match s' with
        | String "." s'' =>
            match spanDotted ok s'' with
            | (EmptyString, _) => (String c EmptyString, s')
            | (a, r) => (String c (String "." a), r)
            end
        | _ => let (a, r) := spanDotted ok s' in (String c a, r)
        end
      else (EmptyString, s)
  end.

(** [s] is made of non-empty runs of [ok] characters joined by single
    dots. *)
Definition isDotted (ok : ascii -> bool) (s : string) : bool :=
  forallb (fun p => negb (String.eqb p "") && containsOnly p ok)
          (strings.Split s ".").

(** [rest] starts with an [ok] character, or with a dot and an [ok]
    character: a match of dotted runs that stops before [rest] could
    go on. *)
Definition continues (ok : ascii -> bool) (rest : string) : bool :=
  match rest with
  | EmptyString => false
  | String c r =>
      ok c
      || (Ascii.eqb c "."
          && match r with String d _ => ok d | EmptyString => false end)
  end.

(** ** [path/filepath], on Unix *)

Module filepath.

Definition isSeparator (c : ascii) : bool := Ascii.eqb c "/".

Fixpoint dropWhile (f : ascii -> bool) (l : list ascii) : list ascii :=
  match l with
  | [] => []
  | c :: l' => if f c then dropWhile f l' else l
  end.

Fixpoint takeWhile (f : ascii -> bool) (l : list ascii) : list ascii :=
  match l with
  | [] => []
  | c :: l' => if f c then c :: takeWhile f l' else []
  end.

(** [filepath.Base]: the last element of the path, trailing separators
    removed; "." for the empty path, "/" for a path of separators. *)
Definition Base (path : string) : string :=
  match path with
  | EmptyString => "."
  | _ =>
      let r := dropWhile isSeparator (rev (list_ascii_of_string path)) in
      match takeWhile (fun c => negb (isSeparator c)) r with
      | [] => "/"
      | last => string_of_list_ascii (rev last)
      end
  end.

End filepath.

(** ** The semantic-version library

    The program imports github.com/Masterminds/semver/v3.  Its code is
    not part of the repository; the program's functions are written
    against this interface, and [Masterminds] below is a model of the
    library that instantiates it. *)

Class Semver : Type := {
  Version : Type;
  Constraints : Type;
  (** [semver.NewVersion]: [None] stands for a non-nil error. *)
  NewVersion : string -> option Version;
  (** the [String] method of a version *)
  Version_String : Version -> string;
  (** the [Compare] method of a version: -1, 0 or 1 *)
  Compare : Version -> Version -> Z;
  (** [semver.NewConstraint] *)
  NewConstraint : string -> option Constraints;
  (** the [Check] method of a constraint *)
  Check : Constraints -> Version -> bool
}.

(** The methods [LessThan], [GreaterThan] and [Equal] of a version. *)
Definition LessThan {L : Semver} (v o : Version) : bool := (Compare v o <? 0)%Z.
Definition GreaterThan {L : Semver} (v o : Version) : bool := (Compare v o >? 0)%Z.
Definition Equal {L : Semver} (v o : Version) : bool := (Compare v o =? 0)%Z.

(** A version the parser can return. *)
Definition parsed {L : Semver} (v : Version) : Prop :=
  exists s, NewVersion s = Some v.

(** What the program relies on from the library: on the versions the
    parser returns, [Compare] is a total preorder, the canonical string
    is not empty and parses back to an equal version. *)
Class SemverLaws (L : Semver) : Prop := {
  Compare_antisym : forall v o, parsed v -> parsed o ->
    Compare o v = (- Compare v o)%Z;
  Compare_trans : forall a b c, parsed a -> parsed b -> parsed c ->
    (Compare a b <= 0)%Z -> (Compare b c <= 0)%Z -> (Compare a c <= 0)%Z;
  String_nonempty : forall v, parsed v -> Version_String v <> "";
  String_parses_back : forall v, parsed v ->
    exists v', NewVersion (Version_String v) = Some v'
               /\ Compare v' v = 0%Z
               /\ Version_String v' = Version_String v
}.

(** ** Go's [sort.Sort]

    [sort.Sort] is not stable and its algorithm is not part of its
    contract, so it is a parameter: a function on the sequence being
    sorted, given the [Less] method of the sorted interface. *)

Class GoSort : Type :=
  sort_Sort : forall A : Type, (A -> A -> bool) -> list A -> list A.

(** [sort.Reverse] swaps the arguments of [Less]. *)
Definition sort_Reverse {A} (less : A -> A -> bool) : A -> A -> bool :=
  fun a b => less b a.

(** The requirement [sort.Interface] puts on [Less], on the elements of
    [l]: nothing sorts before itself, and both [Less] and its negation
    are transitive. *)
Record less_ok {A} (less : A -> A -> bool) (l : list A) : Prop := {
  less_irrefl : forall a, In a l -> less a a = false;
  less_trans : forall a b c, In a l -> In b l -> In c l ->
    less a b = true -> less b c = true -> less a c = true;
  less_cotrans : forall a b c, In a l -> In b l -> In c l ->
    less a b = false -> less b c = false -> less a c = false
}.

(** What [sort.Sort] guarantees: the elements are rearranged, and the
    result satisfies [sort.IsSorted] (no element sorts before its
    predecessor). *)
Class GoSortContract (S : GoSort) : Prop := {
  sort_Sort_perm : forall A less (l : list A),
    Permutation (sort_Sort A less l) l;
  sort_Sort_sorted : forall A less (l : list A), less_ok less l ->
    Sorted (fun a b => less b a = false) (sort_Sort A less l)
}.

(** Insertion sort, one algorithm that meets the contract. *)
Fixpoint insertBy {A} (less : A -> A -> bool) (x : A) (l : list A) : list A :=
  match l with
  | [] => [x]
  | y :: l' => if less x y then x :: l else y :: insertBy less x l'
  end.

Definition insertionSort : GoSort :=
  fun A less l => fold_right (insertBy less) [] l.

(** ** The pure functions of install.go *)

Section Install.
Context {L : Semver}.

(** [contains(slice, item)] *)
Fixpoint contains (slice : list string) (item : string) : bool :=
  match slice with
  | [] => false
  | s :: slice' => if String.eqb s item then true else contains slice' item
  end.

(** [isValidVersion(version)] *)
Definition isValidVersion (version : string) : bool :=
  let version := strings.TrimPrefix version "v" in
  let parts := strings.Split (hd "" (strings.Split version "-")) "." in
  if negb (List.length parts =? 3)%nat then false
  else match NewVersion version with
       | Some _ => true
       | None => false
       end.

(** [isValidVersionConstraint(version)] *)
Definition isValidVersionConstraint (version : string) : bool :=
  match NewConstraint version with
  | Some _ => true
  | None => false
  end.

(** The first loop of [maxSatisfying]: the first element equal to the
    spec without its leading "v", if there is one. *)
Fixpoint exactMatch (versions : list string) (spec : string) : option string :=
  match versions with
  | [] => None
  | v :: versions' =>
      if String.eqb v (strings.TrimPrefix spec "v") then Some v
      else exactMatch versions' spec
  end.

(** One iteration of the second loop of [maxSatisfying]. *)
Definition maxStep (c : Constraints) (maxVersion : option Version)
    (raw : string) : option Version :=
  match NewVersion raw with
  | None => maxVersion
  | Some v =>
      if Check c v then
        match maxVersion with
        | None => Some v
        | Some m => if GreaterThan v m then Some v else maxVersion
        end
      else maxVersion
  end.

(** [maxSatisfying(versions, spec)] *)
Definition maxSatisfying (versions : list string) (spec : string) : string :=
  match exactMatch versions spec with
  | Some v => v
  | None =>
      match NewConstraint spec with
      | None => ""
      | Some c =>
          match fold_left (maxStep c) versions None with
          | None => ""
          | Some maxVersion => Version_String maxVersion
          end
      end
  end.

(** The first loop of [sortVersions]: the entries that parse, in
    order. *)
Definition parseVersions (versions : list string) : list Version :=
  fold_left (fun vs raw =>
               match NewVersion raw with
               | None => vs
               | Some v => (vs ++ [v])%list
               end) versions [].

(** [semver.Collection.Less] *)
Definition Collection_Less (a b : Version) : bool := LessThan a b.

(** [versions[i] = x]; the program only writes below the length. *)
Fixpoint store {A} (i : nat) (x : A) (l : list A) : list A :=
  match l, i with
  | [], _ => []
  | _ :: l', O => x :: l'
  | y :: l', S i' => y :: store i' x l'
  end.

(** The last loop of [sortVersions]. *)
Fixpoint writeBack (i : nat) (vs : list Version) (versions : list string)
  : list string :=
  match vs with
  | [] => versions
  | v :: vs' => writeBack (S i) vs' (store i (Version_String v) versions)
  end.

(** [sortVersions(versions)]: the slice is changed in place; the value
    is its content afterwards. *)
Definition sortVersions {S : GoSort} (versions : list string) : list string :=
  let vs := parseVersions versions in
  let vs := sort_Sort Version (sort_Reverse Collection_Less) vs in
  writeBack 0 vs versions.

(** The entries that parse, as a list function (used to reason about
    the two loops that parse the candidates). *)
Fixpoint parseEach (versions : list string) : list Version :=
  match versions with
  | [] => []
  | raw :: versions' =>
      match NewVersion raw with
      | None => parseEach versions'
      | Some v => v :: parseEach versions'
      end
  end.

(** The candidate kept between two satisfying versions: the later one
    only if it is strictly greater. *)
Definition better (maxVersion : option Version) (v : Version)
  : option Version :=
  match maxVersion with
  | None => Some v
  | Some m => if GreaterThan v m then Some v else maxVersion
  end.

End Install.

(** ** Results, events and the outside world *)

(** A Go [error] value, by its message. *)
Inductive error : Type := Errorf (msg : string).

(** How a call ends: a value with a nil error, a non-nil error, or a
    run-time panic. *)
Inductive res (A : Type) : Type :=
| Val (a : A)
| Err (e : error)
| Panic (msg : string).
Arguments Val {A} a.
Arguments Err {A} e.
Arguments Panic {A} msg.

(** What a run does to the outside, in order. *)
Inductive event : Type :=
| Stdout (line : string)           (* a line printed on standard output *)
| SetOutput (name value : string)  (* "name=value" appended to $GITHUB_OUTPUT *)
| FetchTags                        (* fetchTags() is called *)
| FetchBranches                    (* fetchBranches() is called *)
| CloneBranchOrTag (ref : string)  (* cloneBranchOrTag(ref) is called *)
| Install (gopDir : string)        (* install(gopDir) is called *)
| GopVersion.                      (* gopVersionFunc() is called *)

(** A computation: the events it produced and how it ended. *)
Definition M (A : Type) : Type := (list event * res A)%type.

Definition ret {A} (a : A) : M A := ([], Val a).

Definition bind {A B} (m : M A) (k : A -> M B) : M B :=
  match m with
  | (t, Val a) => let (t', r) := k a in ((t ++ t')%list, r)
  | (t, Err e) => (t, Err e)
  | (t, Panic msg) => (t, Panic msg)
  end.

Notation "x <- c ;; k" := (bind c (fun x => k))
  (at level 61, c at next level, right associativity).
Notation "c ;; k" := (bind c (fun _ => k))
  (at level 61, right associativity).

Definition emit (e : event) : M unit := ([e], Val tt).
Definition fail {A} (e : error) : M A := ([], Err e).
Definition panic {A} (msg : string) : M A := ([], Panic msg).
(** A call to the outside: the event, and the result it gave. *)
Definition call {A} (e : event) (r : res A) : M A := ([e], r).

(** The environment, the file system and the collaborators of one run:
    [fetchTags], [fetchBranches], [cloneBranchOrTag] and [install] run
    git and go; [gopVersionFunc] is the variable of that name. *)
Record World : Type := {
  Getenv : string -> string;
  (** [os.IsNotExist] of the error of [os.Stat] *)
  statIsNotExist : string -> bool;
  ReadFile : string -> res string;
  fetchTags : res (list string);
  fetchBranches : res (list string);
  cloneBranchOrTag : string -> res string;
  install : string -> res unit;
  gopVersionFunc : res string
}.

(** The first submatch of the expression of [parseGopVersionFile] in
    [content], if it matches: the text "gop " at the very start, then
    the submatch, digits followed by any number of groups of a dot and
    digits, as long as possible. *)
Definition gopVersionRegexp (content : string) : option string :=
  match strings.CutPrefix content "gop " with
  | None => None
  | Some r =>
      match spanDotted isDigit r with
      | (EmptyString, _) => None
      | (m, _) => Some m
      end
  end.

Section Run.
Context {L : Semver} {S : GoSort} (w : World).

(** [info(msg)] *)
Definition info (msg : string) : M unit := emit (Stdout msg).

(** [warning(msg)] *)
Definition warning (msg : string) : M unit :=
  emit (Stdout ("::warning::" ++ msg)).

(** [setOutput(name, value)] *)
Definition setOutput (name value : string) : M unit :=
  if negb (String.eqb (Getenv w "GITHUB_OUTPUT") "") then
    emit (SetOutput name value)
  else
    panic ("GITHUB_OUTPUT is not set, cannot set output "
           ++ name ++ "=" ++ value).

(** [parseGopVersionFile(versionFilePath)] *)
Definition parseGopVersionFile (versionFilePath : string) : M string :=
  content <- ([], ReadFile w versionFilePath) ;;
  let filename := filepath.Base versionFilePath in
  if String.eqb filename "gop.mod" || String.eqb filename "gop.work" then
    match gopVersionRegexp content with
    | Some m => ret m
    | None => ret ""
    end
  else ret (strings.TrimSpace content).

(** [resolveVersionInput()] *)
Definition resolveVersionInput : M string :=
  let version := Getenv w "INPUT_GOP_VERSION" in
  let versionFile := Getenv w "INPUT_GOP_VERSION_FILE" in
  if negb (String.eqb version "") && negb (String.eqb versionFile "") then
    warning "Both gop-version and gop-version-file inputs are specified, only gop-version will be used" ;;
    ret version
  else if negb (String.eqb version "") then ret version
  else if negb (String.eqb versionFile "") then
    if statIsNotExist w versionFile then
      fail (Errorf ("the specified gop version file at: " ++ versionFile
                    ++ " does not exist"))
    else parseGopVersionFile versionFile
  else ret "".

(** [checkVersion(versionSpec)] *)
Definition checkVersion (versionSpec : string) : M unit :=
  info ("Testing gop " ++ versionSpec ++ " ...") ;;
  actualVersion <- call GopVersion (gopVersionFunc w) ;;
  match NewVersion versionSpec with
  | None => fail (Errorf ("invalid version spec: " ++ versionSpec))
  | Some expected =>
      match NewVersion actualVersion with
      | None =>
          fail (Errorf ("invalid installed version: " ++ actualVersion))
      | Some actual =>
          if negb (Equal expected actual) then
            fail (Errorf ("installed gop version " ++ Version_String actual
                          ++ " does not match expected version "
                          ++ Version_String expected))
          else info ("Installed gop version " ++ actualVersion)
      end
  end.

(** The version selected in [InstallGop], from the spec and the sorted
    valid versions; empty when the spec names a branch. *)
Definition selectVersion (versionSpec : string) (validVersions : list string)
  : M string :=
  if String.eqb versionSpec "" || String.eqb versionSpec "latest" then
    match validVersions with
    | [] => panic "runtime error: index out of range [0] with length 0"
    | version :: _ =>
        warning ("No gop-version specified, using latest version: " ++ version) ;;
        ret version
    end
  else
    let version := maxSatisfying validVersions versionSpec in
    if String.eqb version "" then
      warning ("No gop-version found that satisfies '" ++ versionSpec
               ++ "', trying branches...") ;;
      branches <- call FetchBranches (fetchBranches w) ;;
      if negb (contains branches versionSpec) then
        fail (Errorf ("no gop-version found that satisfies '" ++ versionSpec
                      ++ "' in branches or tags"))
      else ret version
    else ret version.

(** [InstallGop()] *)
Definition InstallGop : M unit :=
  versionSpec <- resolveVersionInput ;;
  tagVersions <- call FetchTags (fetchTags w) ;;
  let validVersions := sortVersions (filter isValidVersion tagVersions) in
  version <- selectVersion versionSpec validVersions ;;
  checkoutVersion <-
    (if negb (String.eqb version "") then
       info ("Selected version " ++ version ++ " by spec " ++ versionSpec) ;;
       setOutput "gop-version-verified" "true" ;;
       ret ("v" ++ version)
     else
       warning ("Unable to find a version that satisfies the version spec '"
                ++ versionSpec ++ "', trying branches...") ;;
       setOutput "gop-version-verified" "false" ;;
       ret versionSpec) ;;
  gopDir <- call (CloneBranchOrTag checkoutVersion)
                 (cloneBranchOrTag w checkoutVersion) ;;
  call (Install gopDir) (install w gopDir) ;;
  (if negb (String.eqb version "") then checkVersion version else ret tt) ;;
  gopVersion <- call GopVersion (gopVersionFunc w) ;;
  setOutput "gop-version" gopVersion.

End Run.

(** ** A model of github.com/Masterminds/semver/v3 *)

Module Masterminds.

(** Modelled from the spec: the semantic-version library
    (github.com/Masterminds/semver/v3) that install.go imports; its code
    is absent from the repository.  [Version], [NewVersion],
    [Version_String] and [Compare] follow section 3 of the specification
    (numeric major, minor, patch; optional pre-release and build
    metadata; precedence by major, minor, patch, then pre-release; build
    metadata ignored) and the lenient parser section 4.1 mentions, which
    accepts a leading "v" and missing minor or patch components. *)
Record Version : Type := mkVersion {
  major : N;
  minor : N;
  patch : N;
  pre : string;
  metadata : string;
  original : string
}.

(** The characters of an identifier: digits, letters and the hyphen. *)
Definition isAllowed (c : ascii) : bool :=
  let n := N_of_ascii c in
  ((48 <=? n) && (n <=? 57) || (65 <=? n) && (n <=? 90)
   || (97 <=? n) && (n <=? 122) || (n =? 45))%N.

(** [strconv.ParseUint(s, 10, 64)]: decimal digits only, not empty,
    below 2^64. *)
Definition ParseUint (s : string) : option N :=
  match s with
  | EmptyString => None
  | _ =>
      match NilEmpty.uint_of_string s with
      | None => None
      | Some d =>
          let n := N.of_uint d in
          if (n <? 2 ^ 64)%N then Some n else None
      end
  end.

(** A number printed with the verb %d. *)
Definition formatUint (n : N) : string := NilZero.string_of_uint (N.to_uint n).

(** The text before the first [sep], and the text after it if [sep]
    occurs. *)
Fixpoint cutAt (sep : ascii) (s : string) : string * option string :=
  match s with
  | EmptyString => (EmptyString, None)
  | String c s' =>
      if Ascii.eqb c sep then (EmptyString, Some s')
      else let (a, b) := cutAt sep s' in (String c a, b)
  end.

(** Dot-separated non-empty identifiers:
    [[0-9A-Za-z\-]+(\.[0-9A-Za-z\-]+)*]. *)
Definition isIdentifiers (s : string) : bool :=
  forallb (fun p => negb (String.eqb p "") && containsOnly p isAllowed)
          (strings.Split s ".").

(** An optional group [(\.[0-9]+)?]: the text matched (with its dot) and
    the rest. *)
Definition dotNumber (s : string) : string * string :=
  match s with
  | String "." s' =>
      match spanDigits s' with
      | (EmptyString, _) => (EmptyString, s)
      | (d, r) => (String "." d, r)
      end
  | _ => (EmptyString, s)
  end.

(** The optional groups [(-pre)?(\+metadata)?] up to the end of the
    text. *)
Definition preAndMetadata (s : string) : option (string * string) :=
  match s with
  | EmptyString => Some (EmptyString, EmptyString)
  | String "-" t =>
      match cutAt "+" t with
      | (p, None) => if isIdentifiers p then Some (p, EmptyString) else None
      | (p, Some m) =>
          if isIdentifiers p && isIdentifiers m then Some (p, m) else None
      end
  | String "+" m => if isIdentifiers m then Some (EmptyString, m) else None
  | _ => None
  end.

(** The optional group [v?]: the text matched and the rest. *)
Definition optionalV (s : string) : string * string :=
  match s with
  | EmptyString => (EmptyString, EmptyString)
  | String c r => if Ascii.eqb c "v" then ("v", r) else (EmptyString, s)
  end.

(** The submatches 1, 2, 3, 5 and 8 of the expression the library
    matches a version against, anchored at both ends:
    [v?([0-9]+)(\.[0-9]+)?(\.[0-9]+)?(-(pre))?(\+(metadata))?]. *)
Definition versionRegex (v : string)
  : option (string * string * string * string * string) :=
  match spanDigits (snd (optionalV v)) with
  | (EmptyString, _) => None
  | (m1, r1) =>
      let (m2, r2) := dotNumber r1 in
      let (m3, r3) := match m2 with
                      | EmptyString => (EmptyString, r2)
                      | _ => dotNumber r2
                      end in
      match preAndMetadata r3 with
      | None => None
      | Some (m5, m8) => Some (m1, m2, m3, m5, m8)
      end
  end.

(** A numeric pre-release identifier has no leading zero. *)
Definition validatePrerelease (p : string) : bool :=
  forallb (fun p =>
             if String.eqb p "" then false
             else if containsOnly p isDigit then
               negb ((1 <? String.length p)%nat
                     && match p with String "0" _ => true | _ => false end)
             else containsOnly p isAllowed)
          (strings.Split p ".").

Definition validateMetadata (m : string) : bool :=
  forallb (fun p => negb (String.eqb p "") && containsOnly p isAllowed)
          (strings.Split m ".").

(** A version component that may be absent: 0 when it is. *)
Definition parseSegment (m : string) : option N :=
  match m with
  | EmptyString => Some 0%N
  | _ => ParseUint (strings.TrimPrefix m ".")
  end.

(** [semver.NewVersion] *)
Definition NewVersion (v : string) : option Version :=
  match versionRegex v with
  | None => None
  | Some (m1, m2, m3, m5, m8) =>
      match ParseUint m1, parseSegment m2, parseSegment m3 with
      | Some ma, Some mi, Some pa =>
          if (String.eqb m5 "" || validatePrerelease m5)
             && (String.eqb m8 "" || validateMetadata m8)
          then Some (mkVersion ma mi pa m5 m8 v)
          else None
      | _, _, _ => None
      end
  end.

(** The canonical string: major.minor.patch[-pre][+metadata]. *)
Definition Version_String (v : Version) : string :=
  formatUint (major v) ++ "." ++ formatUint (minor v) ++ "."
  ++ formatUint (patch v)
  ++ (if String.eqb (pre v) "" then "" else "-" ++ pre v)
  ++ (if String.eqb (metadata v) "" then "" else "+" ++ metadata v).

Definition compareSegment (v o : N) : Z :=
  if (v <? o)%N then (-1)%Z else if (o <? v)%N then 1%Z else 0%Z.

(** One pre-release identifier against another: numbers by value and
    before text, text by byte order, nothing before something. *)
Definition comparePrePart (s o : string) : Z :=
  if String.eqb s o then 0%Z
  else if String.eqb s "" then (-1)%Z
  else if String.eqb o "" then 1%Z
  else
    match ParseUint o, ParseUint s with
    | None, None =>
        match String.compare s o with Gt => 1%Z | _ => (-1)%Z end
    | None, Some _ => (-1)%Z
    | Some _, None => 1%Z
    | Some oi, Some si => if (oi <? si)%N then 1%Z else (-1)%Z
    end.

(** The loop of [comparePrerelease]: [n] rounds, a missing identifier
    read as the empty string. *)
Fixpoint comparePreLoop (n : nat) (sparts oparts : list string) : Z :=
  match n with
  | O => 0%Z
  | S n' =>
      let d := comparePrePart (hd "" sparts) (hd "" oparts) in
      if negb (d =? 0)%Z then d
      else comparePreLoop n' (tl sparts) (tl oparts)
  end.

Definition comparePrerelease (v o : string) : Z :=
  let sparts := strings.Split v "." in
  let oparts := strings.Split o "." in
  comparePreLoop (Nat.max (List.length sparts) (List.length oparts))
                 sparts oparts.

(** The [Compare] method: -1, 0 or 1. *)
Definition Compare (v o : Version) : Z :=
  let d := compareSegment (major v) (major o) in
  if negb (d =? 0)%Z then d else
  let d := compareSegment (minor v) (minor o) in
  if negb (d =? 0)%Z then d else
  let d := compareSegment (patch v) (patch o) in
  if negb (d =? 0)%Z then d else
  if String.eqb (pre v) "" && String.eqb (pre o) "" then 0%Z
  else if String.eqb (pre v) "" then 1%Z
  else if String.eqb (pre o) "" then (-1)%Z
  else comparePrerelease (pre v) (pre o).

Definition LessThan (v o : Version) : bool := (Compare v o <? 0)%Z.
Definition Equal (v o : Version) : bool := (Compare v o =? 0)%Z.

(** Modelled from the spec: the constraint half of the same library,
    after section 3 of the specification: clauses made of an operator
    (none, =, !=, >, <, >=, =>, <=, =<, ~, ~>, ^) and a version whose
    components may be the wild cards x, X and *, joined by white space
    or commas into a conjunction; conjunctions joined by "||"; "A - B"
    for a range.  Clauses are read greedily from left to right.  The
    theorems about [maxSatisfying] hold for every constraint parser;
    this one is used where a claim names a concrete constraint. *)
Record constraint : Type := mkConstraint {
  con : Version;
  origfunc : string;
  minorDirty : bool;
  dirty : bool;
  patchDirty : bool
}.

(** A disjunction of conjunctions. *)
Definition Constraints : Type := list (list constraint).

Definition isOpChar (c : ascii) : bool :=
  existsb (Ascii.eqb c) ["="; "!"; "<"; ">"; "~"; "^"]%char.

Definition isOp (op : string) : bool :=
  existsb (String.eqb op)
          [""; "="; "!="; ">"; "<"; ">="; "=>"; "<="; "=<"; "~"; "~>"; "^"].

(** A character of a component of a constraint version:
    [[0-9|x|X|\*]]. *)
Definition isCompChar (c : ascii) : bool :=
  isDigit c || existsb (Ascii.eqb c) ["x"; "X"; "*"; "|"]%char.

(** White space of the regular expressions: [\s]. *)
Definition isWs (c : ascii) : bool :=
  existsb (Ascii.eqb c) [" "; "009"; "010"; "012"; "013"]%char.

Definition skipWs (s : string) : string := snd (span isWs s).

(** The longest prefix made of dot-separated non-empty identifiers. *)
Definition spanIdentifiers : string -> string * string := spanDotted isAllowed.


(** An optional group [(\.[0-9|x|X|\*]+)?]. *)
Definition dotComponent (s : string) : string * string :=
  match s with
  | String "." s' =>
      match span isCompChar s' with
      | (EmptyString, _) => (EmptyString, s)
      | (d, r) => (String "." d, r)
      end
  | _ => (EmptyString, s)
  end.

(** An optional group introduced by [mark]: the text matched (with the
    mark) and the rest. *)
Definition markedIdentifiers (mark : ascii) (s : string) : string * string :=
  match s with
  | String c s' =>
      if Ascii.eqb c mark then
        match spanIdentifiers s' with
        | (EmptyString, _) => (EmptyString, s)
        | (a, r) => (String c a, r)
        end
      else (EmptyString, s)
  | EmptyString => (EmptyString, s)
  end.

(** The version of a clause: the whole text and its submatches (first
    component, second and third with their dots, pre-release with its
    hyphen), and the rest of the input. *)
Definition constraintVersion (s : string)
  : option (string * string * string * string * string * string) :=
  let (v, s1) := optionalV s in
  match span isCompChar s1 with
  | (EmptyString, _) => None
  | (m3, r3) =>
      let (m4, r4) := dotComponent r3 in
      let (m5, r5) := match m4 with
                      | EmptyString => (EmptyString, r4)
                      | _ => dotComponent r4
                      end in
      let (m6, r6) := markedIdentifiers "-" r5 in
      let (m9, r9) := markedIdentifiers "+" r6 in
      Some (v ++ m3 ++ m4 ++ m5 ++ m6 ++ m9, m3, m4, m5, m6, r9)
  end.

Definition isX (x : string) : bool :=
  String.eqb x "x" || String.eqb x "X" || String.eqb x "*".

(** [parseConstraint], from the operator and the submatches. *)
Definition makeConstraint (op m2 m3 m4 m5 m6 : string) : option constraint :=
  let '(ver, minorD, patchD, d) :=
    if isX m3 || String.eqb m3 "" then
      ("0.0.0" ++ m6, false, false, true)
    else if isX (strings.TrimPrefix m4 ".") || String.eqb m4 "" then
      (m3 ++ ".0.0" ++ m6, true, false, true)
    else if isX (strings.TrimPrefix m5 ".") || String.eqb m5 "" then
      (m3 ++ m4 ++ ".0" ++ m6, false, true, true)
    else (m2, false, false, false) in
  match NewVersion ver with
  | None => None
  | Some c => Some (mkConstraint c op minorD d patchD)
  end.

(** The clauses of one conjunction; [fuel] bounds their number. *)
Fixpoint parseClauses (fuel : nat) (s : string) : option (list constraint) :=
  match s, fuel with
  | EmptyString, _ => Some []
  | _, O => None
  | _, S fuel' =>
      let (op, r) := span isOpChar (skipWs s) in
      if negb (isOp op) then None else
      match constraintVersion (skipWs r) with
      | None => None
      | Some (m2, m3, m4, m5, m6, r1) =>
          let range :=
            match span isWs r1 with
            | (String _ _, String "-" t) =>
                match span isWs t with
                | (String _ _, t') =>
                    if String.eqb op "" then constraintVersion t' else None
                | _ => None
                end
            | _ => None
            end in
          let clauses :=
            match range with
            | Some (n2, n3, n4, n5, n6, r2) =>
                match makeConstraint ">=" m2 m3 m4 m5 m6,
                      makeConstraint "<=" n2 n3 n4 n5 n6 with
                | Some a, Some b => Some ([a; b], r2)
                | _, _ => None
                end
            | None =>
                match makeConstraint op m2 m3 m4 m5 m6 with
                | Some a => Some ([a], r1)
                | None => None
                end
            end in
          match clauses with
          | None => None
          | Some (cs, rest) =>
              let rest := skipWs rest in
              let rest := match rest with String "," t => t | _ => rest end in
              match parseClauses fuel' rest with
              | None => None
              | Some more => Some (cs ++ more)%list
              end
          end
      end
  end.

(** The constraint of the empty text: any version. *)
Definition anyVersion : constraint :=
  mkConstraint (mkVersion 0 0 0 "" "" "0.0.0") "" false true false.

Fixpoint splitOr (s : string) : list string :=
  match s with
  | EmptyString => [EmptyString]
  | String "|" (String "|" r) => EmptyString :: splitOr r
  | String c s' =>
      match splitOr s' with
      | p :: ps => String c p :: ps
      | [] => [String c EmptyString]
      end
  end.

Fixpoint mapM {A B} (f : A -> option B) (l : list A) : option (list B) :=
  match l with
  | [] => Some []
  | a :: l' =>
      match f a, mapM f l' with
      | Some b, Some bs => Some (b :: bs)
      | _, _ => None
      end
  end.

(** [semver.NewConstraint] *)
Definition NewConstraint (c : string) : option Constraints :=
  mapM (fun v =>
          match v with
          | EmptyString => Some [anyVersion]
          | _ => parseClauses (String.length v) v
          end) (splitOr c).

Definition hasPre (v : Version) : bool := negb (String.eqb (pre v) "").

Definition constraintNotEqual (v : Version) (c : constraint) : bool :=
  if dirty c then
    if negb (major (con c) =? major v)%N then true
    else if negb (minor (con c) =? minor v)%N && negb (minorDirty c) then true
    else if minorDirty c then false
    else if negb (patch (con c) =? patch v)%N && negb (patchDirty c) then true
    else if patchDirty c then
      if hasPre v || hasPre (con c) then
        negb (comparePrerelease (pre v) (pre (con c)) =? 0)%Z
      else false
    else negb (Equal v (con c))
  else negb (Equal v (con c)).

Definition constraintGreaterThan (v : Version) (c : constraint) : bool :=
  if negb (dirty c) then (Compare v (con c) =? 1)%Z
  else if (major (con c) <? major v)%N then true
  else if (major v <? major (con c))%N then false
  else if minorDirty c then false
  else if patchDirty c then (minor (con c) <? minor v)%N
  else (Compare v (con c) =? 1)%Z.

Definition constraintLessThan (v : Version) (c : constraint) : bool :=
  (Compare v (con c) <? 0)%Z.

Definition constraintGreaterThanEqual (v : Version) (c : constraint) : bool :=
  (Compare v (con c) >=? 0)%Z.

Definition constraintLessThanEqual (v : Version) (c : constraint) : bool :=
  if negb (dirty c) then (Compare v (con c) <=? 0)%Z
  else if (major (con c) <? major v)%N then false
  else if (major v =? major (con c))%N && (minor (con c) <? minor v)%N
          && negb (minorDirty c) then false
  else true.

Definition constraintTilde (v : Version) (c : constraint) : bool :=
  if LessThan v (con c) then false
  else if (major (con c) =? 0)%N && (minor (con c) =? 0)%N
          && (patch (con c) =? 0)%N
          && negb (minorDirty c) && negb (patchDirty c) then true
  else if negb (major v =? major (con c))%N then false
  else if negb (minor v =? minor (con c))%N && negb (minorDirty c) then false
  else true.

Definition constraintTildeOrEqual (v : Version) (c : constraint) : bool :=
  if dirty c then constraintTilde v c else Equal v (con c).

Definition constraintCaret (v : Version) (c : constraint) : bool :=
  if LessThan v (con c) then false
  else if (0 <? major (con c))%N || minorDirty c then
    (major v =? major (con c))%N
  else if (major (con c) =? 0)%N && (0 <? major v)%N then false
  else if (0 <? minor (con c))%N || patchDirty c then
    (minor v =? minor (con c))%N
  else if (minor (con c) =? 0)%N && (0 <? minor v)%N then false
  else (patch (con c) =? patch v)%N.

(** One clause against a version; a pre-release version only satisfies a
    conjunction that names a pre-release. *)
Definition check (c : constraint) (v : Version) (includePre : bool) : bool :=
  if hasPre v && negb includePre then false
  else
    let op := origfunc c in
    if String.eqb op "" || String.eqb op "=" then constraintTildeOrEqual v c
    else if String.eqb op "!=" then constraintNotEqual v c
    else if String.eqb op ">" then constraintGreaterThan v c
    else if String.eqb op "<" then constraintLessThan v c
    else if String.eqb op ">=" || String.eqb op "=>" then
      constraintGreaterThanEqual v c
    else if String.eqb op "<=" || String.eqb op "=<" then
      constraintLessThanEqual v c
    else if String.eqb op "~" || String.eqb op "~>" then constraintTilde v c
    else constraintCaret v c.

(** The [Check] method: some conjunction holds in all its clauses. *)
Definition Check (cs : Constraints) (v : Version) : bool :=
  existsb (fun o =>
             let includePre := existsb (fun c => hasPre (con c)) o in
             forallb (fun c => check c v includePre) o) cs.

(** *** Definitions used in the proofs about the model *)

(** A decimal without a leading zero, unless it is "0". *)
Definition noLeadingZero (p : string) : bool :=
  negb ((1 <? String.length p)%nat
        && match p with String "0" _ => true | _ => false end).

(** What an identifier is compared as: nothing, a number, or text. *)
Inductive key : Type :=
| KEmpty
| KNum (n : N)
| KText (s : string).

Definition keyOf (s : string) : key :=
  match s with
  | EmptyString => KEmpty
  | _ => match ParseUint s with
         | Some n => KNum n
         | None => KText s
         end
  end.

Definition signOf (c : comparison) : Z :=
  match c with Lt => (-1)%Z | Eq => 0%Z | Gt => 1%Z end.

Definition keyCmp (a b : key) : Z :=
  match a, b with
  | KEmpty, KEmpty => 0%Z
  | KEmpty, _ => (-1)%Z
  | _, KEmpty => 1%Z
  | KNum x, KNum y => signOf (N.compare x y)
  | KNum _, KText _ => (-1)%Z
  | KText _, KNum _ => 1%Z
  | KText x, KText y => signOf (String.compare x y)
  end.

(** An identifier of a pre-release that passed [validatePrerelease]. *)
Definition okIdent (p : string) : Prop :=
  p <> "" /\ (containsOnly p isDigit = true -> noLeadingZero p = true).

Definition okPart (p : string) : Prop := p = "" \/ okIdent p.

(** Identifier by identifier; a proper prefix comes first. *)
Fixpoint lexKeys (a b : list key) : Z :=
  match a, b with
  | [], [] => 0%Z
  | [], _ :: _ => (-1)%Z
  | _ :: _, [] => 1%Z
  | x :: a', y :: b' =>
      let d := keyCmp x y in
      if (d =? 0)%Z then lexKeys a' b' else d
  end.

(** [strings.Join], for the same separators. *)
Fixpoint Join (parts : list string) (sep : ascii) : string :=
  match parts with
  | [] => ""
  | p :: ps =>
      match ps with
      | [] => p
      | _ => p ++ String sep (Join ps sep)
      end
  end.

(** A pre-release as [NewVersion] keeps it: none, or identifiers that
    passed [validatePrerelease]. *)
Definition okPre (p : string) : Prop :=
  p = "" \/ Forall okIdent (strings.Split p ".").

(** The pre-release part of [Compare]. *)
Definition comparePre (p q : string) : Z :=
  if String.eqb p "" && String.eqb q "" then 0%Z
  else if String.eqb p "" then 1%Z
  else if String.eqb q "" then (-1)%Z
  else comparePrerelease p q.

(** What [NewVersion] guarantees of the version it returns. *)
Definition wf (v : Version) : Prop :=
  (major v < 2 ^ 64)%N /\ (minor v < 2 ^ 64)%N /\ (patch v < 2 ^ 64)%N
  /\ (pre v = "" \/ validatePrerelease (pre v) = true)
  /\ (metadata v = "" \/ validateMetadata (metadata v) = true).

Definition notPlus (c : ascii) : bool := negb (Ascii.eqb c "+").

(** The suffix of the canonical string. *)
Definition suffixOf (p m : string) : string :=
  (if String.eqb p "" then "" else "-" ++ p)
  ++ (if String.eqb m "" then "" else "+" ++ m).

End Masterminds.

#[export] Instance Masterminds_Semver : Semver := {|
  Version := Masterminds.Version;
  Constraints := Masterminds.Constraints;
  NewVersion := Masterminds.NewVersion;
  Version_String := Masterminds.Version_String;
  Compare := Masterminds.Compare;
  NewConstraint := Masterminds.NewConstraint;
  Check := Masterminds.Check
|}.

(** ** The validity of a version in the words of the specification

    Section 4.1 of the specification, read by itself: one optional
    leading "v" is stripped; the pre-release or build suffix, which
    starts at the first "-" or "+", is split off; what is left has
    exactly three dot-separated numeric components; and the whole text
    follows the strict grammar of semantic versions (numbers without
    leading zeros, identifiers of letters, digits and hyphens, numeric
    pre-release identifiers without leading zeros). *)

Definition startsSuffix (c : ascii) : bool := Ascii.eqb c "-" || Ascii.eqb c "+".

Definition isNumeric (p : string) : bool :=
  negb (String.eqb p "") && containsOnly p isDigit.

Definition strictSemver (s : string) : bool :=
  let (core, suffix) := span (fun c => negb (startsSuffix c)) s in
  forallb (fun p => isNumeric p && Masterminds.noLeadingZero p)
          (strings.Split core ".")
  && (List.length (strings.Split core ".") =? 3)%nat
  && match Masterminds.preAndMetadata suffix with
     | Some (p, _) => String.eqb p "" || Masterminds.validatePrerelease p
     | None => false
     end.

Definition isValidVersion_spec (s : string) : bool :=
  let s := strings.TrimPrefix s "v" in
  let core := fst (span (fun c => negb (startsSuffix c)) s) in
  (List.length (strings.Split core ".") =? 3)%nat
  && forallb isNumeric (strings.Split core ".")
  && strictSemver s.

(** ** Definitions used to state what a run does *)

(** An event that [InstallGop] can produce after the clone, given the
    selected version: the install, the queries, the lines of
    [checkVersion] (only when a version was selected) and the final
    output. *)
Definition afterCloneEvent (version : string) (e : event) : Prop :=
  match e with
  | Install _ => True
  | GopVersion => True
  | SetOutput name _ => name = "gop-version"
  | Stdout _ => version <> ""
  | _ => False
  end.

(** The line that announces the checkout, the value of the output
    "gop-version-verified" and the reference that is cloned, from the
    spec and the selected version. *)
Definition checkoutOf (versionSpec version : string)
  : string * string * string :=
  if negb (String.eqb version "") then
    ("Selected version " ++ version ++ " by spec " ++ versionSpec,
     "true", "v" ++ version)
  else
    ("::warning::Unable to find a version that satisfies the version spec '"
     ++ versionSpec ++ "', trying branches...",
     "false", versionSpec).

(** The line feed. *)
Definition newline : string := String "010" EmptyString.

(** ** Worlds for the examples *)

(** A world with no input, where only the installed version is set. *)
Definition worldReporting (installed : res string) : World := {|
  Getenv := fun _ => "";
  statIsNotExist := fun _ => true;
  ReadFile := fun _ => Err (Errorf "open: no such file or directory");
  fetchTags := Val [];
  fetchBranches := Val [];
  cloneBranchOrTag := fun _ => Err (Errorf "exit status 128");
  install := fun _ => Err (Errorf "exit status 1");
  gopVersionFunc := installed
|}.

(** A world with the two inputs set and one file. *)
Definition worldWithFile (version versionFile path content : string)
  : World := {|
  Getenv := fun k =>
    if String.eqb k "INPUT_GOP_VERSION" then version
    else if String.eqb k "INPUT_GOP_VERSION_FILE" then versionFile
    else "";
  statIsNotExist := fun p => negb (String.eqb p path);
  ReadFile := fun p =>
    if String.eqb p path then Val content
    else Err (Errorf "open: no such file or directory");
  fetchTags := Val [];
  fetchBranches := Val [];
  cloneBranchOrTag := fun _ => Err (Errorf "exit status 128");
  install := fun _ => Err (Errorf "exit status 1");
  gopVersionFunc := Err (Errorf "failed to get gop version")
|}.

(** A world of a run in a workflow: the spec, the tags and branches of
    the remote, and the version the installed binary reports. *)
Definition worldOfRun (version : string) (tags branches : list string)
    (installed : string) : World := {|
  Getenv := fun k =>
    if String.eqb k "INPUT_GOP_VERSION" then version
    else if String.eqb k "GITHUB_OUTPUT" then "/tmp/output"
    else "";
  statIsNotExist := fun _ => true;
  ReadFile := fun _ => Err (Errorf "open: no such file or directory");
  fetchTags := Val tags;
  fetchBranches := Val branches;
  cloneBranchOrTag := fun _ => Val "/home/runner/workdir/gop";
  install := fun _ => Val tt;
  gopVersionFunc := Val installed
|}.

(** ** The remaining functions of install.go that compute *)

(** The horizontal tab. *)
Definition tab : ascii := "009"%char.

(** The line feed, as a character. *)
Definition lf : ascii := "010"%char.

(** The loop of [fetchTags] and [fetchBranches] over the lines of the
    output of git: empty lines are skipped; the second tab-separated
    field of a line, stripped by [strip], is appended; [parts[1]] panics
    on a line without a tab. *)
Fixpoint refsLoop (strip : string -> string) (lines : list string)
    (versions : list string) : res (list string) :=
  match lines with
  | [] => Val versions
  | line :: lines' =>
      if String.eqb line "" then refsLoop strip lines' versions
      else
        match nth_error (strings.Split line tab) 1 with
        | None => Panic "runtime error: index out of range [1] with length 1"
        | Some p => refsLoop strip lines' (versions ++ [strip p])%list
        end
  end.

(** [fetchTags()], from how the command [git ls-remote --tags] ended. *)
Definition fetchTagsOf (cmdOutput : res string) : res (list string) :=
  match cmdOutput with
  | Val out =>
      refsLoop (fun p => strings.TrimPrefix
                           (strings.TrimPrefix p "refs/tags/") "v")
               (strings.Split out lf) []
  | Err e => Err e
  | Panic msg => Panic msg
  end.

(** [fetchBranches()], from how [git ls-remote --heads] ended. *)
Definition fetchBranchesOf (cmdOutput : res string) : res (list string) :=
  match cmdOutput with
  | Val out =>
      refsLoop (fun p => strings.TrimPrefix p "refs/heads/")
               (strings.Split out lf) []
  | Err e => Err e
  | Panic msg => Panic msg
  end.

(** [getGopVersion()], from how [gop env GOPVERSION] ended. *)
Definition getGopVersionOf (cmdOutput : res string) : res string :=
  match cmdOutput with
  | Val out => Val (strings.TrimPrefix (strings.TrimSpace out) "v")
  | Err (Errorf msg) => Err (Errorf ("failed to get gop version: " ++ msg))
  | Panic msg => Panic msg
  end.

(** The output of [git ls-remote]: one line per reference, the object
    name, a tab, the reference name, a line feed. *)
Fixpoint lsRemoteOutput (refs : list (string * string)) : string :=
  match refs with
  | [] => EmptyString
  | (sha, ref) :: refs' =>
      sha ++ String tab (ref ++ String lf (lsRemoteOutput refs'))
  end.

(** One line of that output, without its line feed. *)
Definition lsRemoteLine (r : string * string) : string :=
  fst r ++ String tab (snd r).

(** No character of [s] is [c]. *)
Definition without (c : ascii) (s : string) : bool :=
  containsOnly s (fun x => negb (Ascii.eqb x c)).

(** A reference as git prints it: neither the object name nor the
    reference name holds a tab or a line feed. *)
Definition wellFormedRef (r : string * string) : Prop :=
  without tab (fst r) = true /\ without lf (fst r) = true
  /\ without tab (snd r) = true /\ without lf (snd r) = true.

(** White space of one byte. *)
Definition isAsciiSpaces (s : string) : bool :=
  containsOnly s strings.asciiSpace.

(** A byte that is a character by itself and not white space. *)
Definition isAsciiGraphic (c : ascii) : bool :=
  (N_of_ascii c <? 128)%N && negb (strings.asciiSpace c).

(** Text that starts and ends with such a byte. *)
Definition isBounded (core : string) : bool :=
  match list_ascii_of_string core, rev (list_ascii_of_string core) with
  | first :: _, last :: _ => isAsciiGraphic first && isAsciiGraphic last
  | _, _ => false
  end.

(** * Part II: lemmas *)

(** ** The exact-match step of [maxSatisfying] *)

Section ExactMatch.
Context {L : Semver}.

Lemma exactMatch_Some versions spec v :
  exactMatch versions spec = Some v ->
  v = strings.TrimPrefix spec "v" /\ In v versions.
Proof.
  induction versions as [|x versions IH]; simpl; [discriminate|].
  destruct (String.eqb_spec x (strings.TrimPrefix spec "v")) as [E|E].
  - intros [= <-]. auto.
  - intros H. destruct (IH H). auto.
Qed.

Lemma exactMatch_In versions spec :
  In (strings.TrimPrefix spec "v") versions ->
  exactMatch versions spec = Some (strings.TrimPrefix spec "v").
Proof.
  induction versions as [|x versions IH]; simpl; [tauto|].
  destruct (String.eqb_spec x (strings.TrimPrefix spec "v")) as [E|E].
  - now rewrite E.
  - intros [H|H]; [congruence | auto].
Qed.

Lemma exactMatch_None versions spec :
  ~ In (strings.TrimPrefix spec "v") versions ->
  exactMatch versions spec = None.
Proof.
  intros H. destruct (exactMatch versions spec) as [v|] eqn:E; [|reflexivity].
  apply exactMatch_Some in E as [-> E]. contradiction.
Qed.

Lemma In_string_dec (s : string) (l : list string) : In s l \/ ~ In s l.
Proof. destruct (in_dec string_dec s l); auto. Qed.

Lemma exactMatch_Permutation versions versions' spec :
  Permutation versions versions' ->
  exactMatch versions spec = exactMatch versions' spec.
Proof.
  intros P.
  destruct (In_string_dec (strings.TrimPrefix spec "v") versions) as [H|H].
  - rewrite (exactMatch_In _ _ H).
    symmetry. apply exactMatch_In. eapply Permutation_in; eauto.
  - rewrite (exactMatch_None _ _ H).
    symmetry. apply exactMatch_None. intros H'. apply H.
    eapply Permutation_in; [symmetry|]; eauto.
Qed.
End ExactMatch.

(** ** The constraint step of [maxSatisfying] *)

Section MaxSatisfying.
Context {L : Semver}.

Lemma parseVersions_from acc versions :
  fold_left (fun vs raw =>
               match NewVersion raw with
               | None => vs
               | Some v => (vs ++ [v])%list
               end) versions acc
  = (acc ++ parseEach versions)%list.
Proof.
  revert acc. induction versions as [|raw versions IH]; intros acc; simpl.
  - now rewrite app_nil_r.
  - destruct (NewVersion raw); rewrite IH; [|reflexivity].
    now rewrite <- app_assoc.
Qed.

Lemma parseVersions_parseEach versions :
  parseVersions versions = parseEach versions.
Proof. unfold parseVersions. now rewrite parseVersions_from. Qed.

Lemma parseEach_In versions v :
  In v (parseEach versions) <->
  exists raw, In raw versions /\ NewVersion raw = Some v.
Proof.
  induction versions as [|raw versions IH]; simpl.
  - split; [tauto | intros (? & [] & _)].
  - destruct (NewVersion raw) as [x|] eqn:E; simpl; rewrite IH; split.
    + intros [<-|(r & ? & ?)]; eauto.
    + intros (r & [<-|?] & ?); [left; congruence | eauto].
    + intros (r & ? & ?); eauto.
    + intros (r & [<-|?] & ?); [congruence | eauto].
Qed.

Lemma parseEach_parsed versions :
  Forall parsed (parseEach versions).
Proof.
  apply Forall_forall. intros v H. apply parseEach_In in H as (raw & _ & H).
  now exists raw.
Qed.

Lemma parseEach_length versions :
  (List.length (parseEach versions) <= List.length versions)%nat.
Proof.
  induction versions as [|raw versions IH]; simpl; [lia|].
  destruct (NewVersion raw); simpl; lia.
Qed.

Lemma parseEach_Permutation versions versions' :
  Permutation versions versions' ->
  Permutation (parseEach versions) (parseEach versions').
Proof.
  induction 1; simpl.
  - constructor.
  - destruct (NewVersion x); auto.
  - destruct (NewVersion x), (NewVersion y); auto. constructor.
  - etransitivity; eauto.
Qed.

Lemma maxStep_fold c versions acc :
  fold_left (maxStep c) versions acc
  = fold_left better (filter (Check c) (parseEach versions)) acc.
Proof.
  revert acc. induction versions as [|raw versions IH]; intros acc; simpl.
  - reflexivity.
  - unfold maxStep at 2. destruct (NewVersion raw) as [v|]; simpl; [|apply IH].
    destruct (Check c v); simpl; [|apply IH].
    rewrite IH. reflexivity.
Qed.

Context {HL : SemverLaws L}.

Lemma Compare_refl v : parsed v -> Compare v v = 0%Z.
Proof. intros H. pose proof (Compare_antisym v v H H). lia. Qed.

Lemma better_fold_max (l : list Version) : forall m,
  parsed m -> Forall parsed l ->
  exists m', fold_left better l (Some m) = Some m'
             /\ (m' = m \/ In m' l)
             /\ (Compare m m' <= 0)%Z
             /\ forall w, In w l -> (Compare w m' <= 0)%Z.
Proof.
  induction l as [|v l IH]; intros m Hm Hl; simpl.
  - exists m. rewrite (Compare_refl m Hm).
    split; [reflexivity|]. split; [now left|]. split; [lia|]. intros w [].
  - inversion Hl as [|? ? Hv Hl']; subst.
    unfold GreaterThan. destruct (Z.gtb_spec (Compare v m) 0) as [G|G].
    + destruct (IH v Hv Hl') as (m' & E & I & C & A).
      assert (Hm' : parsed m').
      { destruct I as [->|I]; auto. eapply Forall_forall in Hl'; eauto. }
      exists m'. split; [exact E|]. split; [destruct I; auto|]. split.
      * apply (Compare_trans m v m'); auto.
        rewrite (Compare_antisym v m); auto. lia.
      * intros w [<-|Hw]; auto.
    + destruct (IH m Hm Hl') as (m' & E & I & C & A).
      assert (Hm' : parsed m').
      { destruct I as [->|I]; auto. eapply Forall_forall in Hl'; eauto. }
      exists m'. split; [exact E|]. split; [destruct I; auto|].
      split; [exact C|].
      intros w [Ew|Hw]; auto. subst w.
      apply (Compare_trans v m m'); auto.
Qed.

(** The result of the second loop: nothing when no candidate
    satisfies the constraint, otherwise a satisfying candidate that no
    satisfying candidate exceeds. *)
Lemma better_fold_spec (l : list Version) :
  Forall parsed l ->
  match fold_left better l None with
  | None => l = []
  | Some m => In m l /\ forall w, In w l -> (Compare w m <= 0)%Z
  end.
Proof.
  destruct l as [|v l]; simpl; auto. intros H.
  inversion H as [|? ? Hv Hl]; subst.
  destruct (better_fold_max l v Hv Hl) as (m' & -> & I & C & A).
  split; [destruct I as [->|I]; simpl; auto|].
  intros w [Ew|Hw]; auto. subst w. exact C.
Qed.

Lemma filter_Permutation {A} (f : A -> bool) (l l' : list A) :
  Permutation l l' -> Permutation (filter f l) (filter f l').
Proof.
  induction 1; simpl.
  - constructor.
  - destruct (f x); auto.
  - destruct (f x), (f y); auto. constructor.
  - etransitivity; eauto.
Qed.

Lemma filter_Forall {A} (P : A -> Prop) f (l : list A) :
  Forall P l -> Forall P (filter f l).
Proof.
  rewrite !Forall_forall. intros H x Hx. apply filter_In in Hx. apply H, Hx.
Qed.

(** The maximum is the same, up to [Compare], whatever the order of
    the candidates. *)
Lemma better_fold_Permutation (l l' : list Version) :
  Forall parsed l -> Permutation l l' ->
  match fold_left better l None, fold_left better l' None with
  | None, None => True
  | Some m, Some m' => Compare m m' = 0%Z /\ In m l /\ In m' l
  | _, _ => False
  end.
Proof.
  intros Hl P.
  assert (Hl' : Forall parsed l').
  { rewrite Forall_forall in *. intros x Hx. apply Hl.
    eapply Permutation_in; [symmetry|]; eauto. }
  pose proof (better_fold_spec l Hl) as S1.
  pose proof (better_fold_spec l' Hl') as S2.
  destruct (fold_left better l None) as [m|],
           (fold_left better l' None) as [m'|]; auto.
  - destruct S1 as [I1 A1], S2 as [I2 A2].
    assert (I2' : In m' l) by (eapply Permutation_in; [symmetry|]; eauto).
    assert (I1' : In m l') by (eapply Permutation_in; eauto).
    specialize (A1 m' I2'). specialize (A2 m I1').
    rewrite Forall_forall in Hl.
    rewrite (Compare_antisym m m') in A1 by auto.
    repeat split; auto. lia.
  - subst l'. destruct S1 as [I1 _].
    apply (Permutation_in _ P) in I1. destruct I1.
  - subst l. apply Permutation_nil in P. subst l'. destruct S2 as [[] _].
Qed.
End MaxSatisfying.

(** ** [sortVersions] *)

Section SortVersions.
Context {L : Semver}.

Lemma store_length {A} i (x : A) l : List.length (store i x l) = List.length l.
Proof.
  revert i. induction l as [|y l IH]; intros [|i]; simpl; auto.
Qed.

Lemma firstn_store {A} i (x : A) l :
  (i < List.length l)%nat ->
  firstn (S i) (store i x l) = (firstn i l ++ [x])%list.
Proof.
  revert i. induction l as [|y l IH]; intros [|i] H; simpl in *; try lia.
  - reflexivity.
  - f_equal. apply IH. lia.
Qed.

Lemma skipn_store {A} i j (x : A) l :
  (i < j)%nat -> skipn j (store i x l) = skipn j l.
Proof.
  revert i j. induction l as [|y l IH]; intros i j H.
  - destruct i; reflexivity.
  - destruct j as [|j]; [lia|]. destruct i as [|i]; simpl; [reflexivity|].
    apply IH. lia.
Qed.

(** The last loop overwrites the entries from [i] on, one per
    version, and leaves the others. *)
Lemma writeBack_spec vs : forall i versions,
  (i + List.length vs <= List.length versions)%nat ->
  writeBack i vs versions
  = (firstn i versions ++ map Version_String vs
     ++ skipn (i + List.length vs) versions)%list.
Proof.
  induction vs as [|v vs IH]; intros i versions H; simpl in *.
  - rewrite Nat.add_0_r. symmetry. apply firstn_skipn.
  - rewrite IH by (rewrite store_length; lia).
    rewrite firstn_store by lia.
    rewrite skipn_store by lia.
    replace (S i + List.length vs)%nat with (i + S (List.length vs))%nat
      by lia.
    rewrite <- app_assoc. reflexivity.
Qed.

Context {HL : SemverLaws L}.

(** Descending precedence meets the requirement of [sort.Interface]
    on the versions that parsed. *)
Lemma reverse_less_ok (l : list Version) :
  Forall parsed l -> less_ok (sort_Reverse Collection_Less) l.
Proof.
  intros Hl. rewrite Forall_forall in Hl.
  unfold sort_Reverse, Collection_Less, LessThan.
  constructor.
  - intros a Ha. rewrite (Compare_refl a) by auto. reflexivity.
  - intros a b c Ha Hb Hc H1 H2.
    apply Z.ltb_lt in H1, H2. apply Z.ltb_lt.
    destruct (Z.lt_ge_cases (Compare c a) 0) as [|G]; [assumption|exfalso].
    assert (Compare a c <= 0)%Z
      by (rewrite (Compare_antisym c a) by auto; lia).
    assert (Compare c b <= 0)%Z by lia.
    pose proof (Compare_trans a c b (Hl _ Ha) (Hl _ Hc) (Hl _ Hb)
                  ltac:(assumption) ltac:(assumption)) as T.
    rewrite (Compare_antisym b a) in T by auto. lia.
  - intros a b c Ha Hb Hc H1 H2.
    apply Z.ltb_ge in H1, H2. apply Z.ltb_ge.
    assert (A1 : (Compare a b <= 0)%Z)
      by (rewrite (Compare_antisym b a) by auto; lia).
    assert (A2 : (Compare b c <= 0)%Z)
      by (rewrite (Compare_antisym c b) by auto; lia).
    pose proof (Compare_trans a b c (Hl _ Ha) (Hl _ Hb) (Hl _ Hc) A1 A2).
    rewrite (Compare_antisym a c) by auto. lia.
Qed.

(** A sequence without ascent between neighbours has no ascent at
    all. *)
Lemma descending_strongly (l : list Version) :
  Forall parsed l ->
  Sorted (fun a b => sort_Reverse Collection_Less b a = false) l ->
  StronglySorted (fun a b => (Compare b a <= 0)%Z) l.
Proof.
  unfold sort_Reverse, Collection_Less, LessThan.
  induction l as [|a l IH]; intros Hp Hs; constructor;
    inversion Hp as [|? ? Ha Hl]; inversion Hs as [|? ? Hs' Hhd]; subst.
  - auto.
  - specialize (IH Hl Hs').
    destruct l as [|b l]; constructor.
    + inversion Hhd as [|? ? Hab]; subst.
      apply Z.ltb_ge in Hab. inversion Hl; subst.
      rewrite (Compare_antisym a b); auto. lia.
    + inversion Hhd as [|? ? Hab]; subst. apply Z.ltb_ge in Hab.
      inversion Hl as [|? ? Hb Hl']; subst.
      inversion IH as [|? ? _ Hbl]; subst.
      rewrite Forall_forall in *. intros c Hc.
      apply (Compare_trans c b a); auto.
      rewrite (Compare_antisym a b); auto. lia.
Qed.

Context {S : GoSort} {HS : GoSortContract S}.

(** [sortVersions] on any library that keeps the laws: the length is
    kept, the entries after the first N are kept, and the first N are
    the canonical strings of the versions that parsed, rearranged into
    descending precedence. *)
Lemma sortVersions_sorted (versions : list string) :
  let vs := parseVersions versions in
  let n := List.length vs in
  let out := sortVersions versions in
  List.length out = List.length versions
  /\ skipn n out = skipn n versions
  /\ exists sorted,
       Permutation sorted vs
       /\ firstn n out = map Version_String sorted
       /\ StronglySorted (fun a b => (Compare b a <= 0)%Z) sorted.
Proof.
  intros vs n out. subst out. unfold sortVersions. fold vs.
  set (sorted := sort_Sort Version (sort_Reverse Collection_Less) vs).
  assert (P : Permutation sorted vs) by apply sort_Sort_perm.
  assert (Hvs : Forall parsed vs).
  { subst vs. rewrite parseVersions_parseEach. apply parseEach_parsed. }
  assert (Hn : List.length sorted = n) by (apply Permutation_length, P).
  assert (Hle : (n <= List.length versions)%nat).
  { subst n vs. rewrite parseVersions_parseEach. apply parseEach_length. }
  rewrite writeBack_spec by (simpl; lia). simpl. rewrite Hn.
  assert (Hm : List.length (map Version_String sorted) = n)
    by now rewrite length_map.
  split; [|split].
  - rewrite length_app, length_skipn, Hm. lia.
  - rewrite <- Hm at 1. now rewrite skipn_app, skipn_all, Nat.sub_diag.
  - exists sorted. split; [exact P|]. split.
    + rewrite <- Hm at 1. now rewrite firstn_app, firstn_all, Nat.sub_diag,
        firstn_O, app_nil_r.
    + apply descending_strongly.
      * rewrite Forall_forall in *. intros x Hx. apply Hvs.
        eapply Permutation_in; eauto.
      * apply sort_Sort_sorted. apply reverse_less_ok, Hvs.
Qed.
End SortVersions.


(** ** Scanning dotted runs *)

Section Dotted.
Variable ok : ascii -> bool.
Hypothesis ok_dot : ok "." = false.






End Dotted.

Lemma CutPrefix_Some prefix : forall s r,
  strings.CutPrefix s prefix = Some r <-> s = prefix ++ r.
Proof.
  induction prefix as [|p prefix IH]; intros s r; cbn.
  - split; [now intros [= ->] | now intros ->].
  - destruct s as [|c s]; [split; discriminate|].
    destruct (Ascii.eqb_spec c p) as [->|N].
    + rewrite IH. split; [now intros -> | now intros [= ->]].
    + split; [discriminate | intros [= E _]; contradiction].
Qed.

Lemma isDotted_head ok c s :
  isDotted ok (String c s) = true -> ok c = true.
Proof.
  unfold isDotted. cbn [strings.Split].
  destruct (Ascii.eqb c "."); [cbn; discriminate|].
  destruct (strings.Split s ".") as [|p ps]; cbn; intros H;
    apply andb_prop in H as [H _]; now apply andb_prop in H as [H _].
Qed.



(** ** The library model keeps the laws *)

Module MastermindsFacts.
Import Masterminds.

(** *** Decimal numbers *)

Lemma string_of_uint_digits d :
  containsOnly (NilEmpty.string_of_uint d) isDigit = true.
Proof. induction d; simpl; auto. Qed.

Lemma to_uint_nonnil n : N.to_uint n <> Decimal.Nil.
Proof.
  destruct n as [|p]; simpl; [discriminate|].
  apply DecimalPos.Unsigned.to_uint_nonnil.
Qed.

Lemma formatUint_NilEmpty n :
  formatUint n = NilEmpty.string_of_uint (N.to_uint n).
Proof.
  unfold formatUint, NilZero.string_of_uint.
  pose proof (to_uint_nonnil n). now destruct (N.to_uint n).
Qed.

Lemma formatUint_digits n : containsOnly (formatUint n) isDigit = true.
Proof. rewrite formatUint_NilEmpty. apply string_of_uint_digits. Qed.

Lemma formatUint_nonempty n : formatUint n <> "".
Proof.
  rewrite formatUint_NilEmpty. pose proof (to_uint_nonnil n).
  now destruct (N.to_uint n).
Qed.

Lemma ParseUint_formatUint n :
  (n < 2 ^ 64)%N -> ParseUint (formatUint n) = Some n.
Proof.
  intros H. unfold ParseUint.
  pose proof (formatUint_nonempty n) as NE.
  destruct (formatUint n) eqn:E; [congruence|]. rewrite <- E.
  rewrite formatUint_NilEmpty, NilEmpty.usu, DecimalN.Unsigned.of_to.
  apply N.ltb_lt in H. now rewrite H.
Qed.

Lemma ParseUint_Some s n :
  ParseUint s = Some n ->
  s <> "" /\ (n < 2 ^ 64)%N
  /\ exists d, NilEmpty.uint_of_string s = Some d /\ N.of_uint d = n.
Proof.
  unfold ParseUint. destruct s as [|c s]; [discriminate|].
  destruct (NilEmpty.uint_of_string (String c s)) as [d|]; [|discriminate].
  destruct (N.ltb_spec (N.of_uint d) (2 ^ 64)); [|discriminate].
  intros [= <-]. repeat split; try easy. now exists d.
Qed.

Lemma noLeadingZero_unorm s d :
  s <> "" -> noLeadingZero s = true ->
  NilEmpty.uint_of_string s = Some d -> Decimal.unorm d = d.
Proof.
  destruct s as [|c s]; [congruence|]. intros _ NZ. simpl.
  destruct (NilEmpty.uint_of_string s) as [d'|] eqn:E; [|discriminate].
  intros H. apply uint_of_char_spec in H.
  destruct H as [[-> ->]|H].
  - (* leading "0": the text is "0" *)
    unfold noLeadingZero in NZ. simpl in NZ.
    destruct s; [|simpl in NZ; discriminate].
    simpl in E. injection E as <-. reflexivity.
  - repeat (destruct H as [[-> ->]|H]; [reflexivity|]).
    destruct H as [-> ->]. reflexivity.
Qed.

Lemma ParseUint_inj s t n :
  noLeadingZero s = true -> noLeadingZero t = true ->
  ParseUint s = Some n -> ParseUint t = Some n -> s = t.
Proof.
  intros Zs Zt Hs Ht.
  apply ParseUint_Some in Hs as (Ns & _ & ds & Es & Hs).
  apply ParseUint_Some in Ht as (Nt & _ & dt & Et & Ht).
  assert (U : Decimal.unorm ds = Decimal.unorm dt)
    by (apply DecimalN.Unsigned.of_iff; congruence).
  rewrite (noLeadingZero_unorm s ds), (noLeadingZero_unorm t dt) in U by auto.
  subst dt. apply NilEmpty.sus in Es, Et. congruence.
Qed.

Lemma uint_of_string_digits s :
  containsOnly s isDigit = true -> exists d, NilEmpty.uint_of_string s = Some d.
Proof.
  induction s as [|c s IH]; simpl; [eauto|].
  intros H. apply andb_prop in H as [Hc Hs].
  destruct (IH Hs) as [d ->].
  destruct c as [[|] [|] [|] [|] [|] [|] [|] [|]]; try discriminate;
    simpl; eauto.
Qed.

Lemma uint_of_string_Some_digits s d :
  NilEmpty.uint_of_string s = Some d -> containsOnly s isDigit = true.
Proof.
  intros H. apply NilEmpty.sus in H. subst s. apply string_of_uint_digits.
Qed.

(** *** Byte order of strings *)

Lemma ascii_compare_eq a b : Ascii.compare a b = Eq -> a = b.
Proof.
  unfold Ascii.compare. intros H. apply N.compare_eq in H.
  rewrite <- (ascii_N_embedding a), <- (ascii_N_embedding b). congruence.
Qed.

Lemma string_compare_refl s : String.compare s s = Eq.
Proof.
  induction s as [|c s IH]; simpl; auto.
  unfold Ascii.compare. now rewrite N.compare_refl.
Qed.

Lemma string_compare_lt_trans a : forall b c,
  String.compare a b = Lt -> String.compare b c = Lt ->
  String.compare a c = Lt.
Proof.
  induction a as [|x a IH]; intros [|y b] [|z c]; simpl; try congruence.
  unfold Ascii.compare.
  destruct (N.compare_spec (N_of_ascii x) (N_of_ascii y)) as [E1|L1|G1];
    try discriminate;
    destruct (N.compare_spec (N_of_ascii y) (N_of_ascii z)) as [E2|L2|G2];
    try discriminate; intros H1 H2.
  - rewrite E1, E2, N.compare_refl. eauto.
  - rewrite E1. now apply N.compare_lt_iff in L2 as ->.
  - rewrite <- E2. now apply N.compare_lt_iff in L1 as ->.
  - assert (T : (N_of_ascii x < N_of_ascii z)%N) by lia.
    now apply N.compare_lt_iff in T as ->.
Qed.

(** *** Pre-release identifiers *)

Lemma keyCmp_antisym a b : keyCmp b a = (- keyCmp a b)%Z.
Proof.
  destruct a as [|x|x], b as [|y|y]; simpl; try reflexivity.
  - rewrite (N.compare_antisym x y). now destruct (N.compare x y).
  - rewrite (String.compare_antisym y x). now destruct (String.compare x y).
Qed.

Lemma keyCmp_eq a b : keyCmp a b = 0%Z <-> a = b.
Proof.
  destruct a as [|x|x], b as [|y|y]; simpl; split; try discriminate; auto.
  - destruct (N.compare_spec x y); try discriminate. now subst.
  - intros [= ->]. now rewrite N.compare_refl.
  - destruct (String.compare x y) eqn:E; try discriminate.
    apply String.compare_eq_iff in E. now subst.
  - intros [= ->]. now rewrite string_compare_refl.
Qed.

Lemma keyCmp_range a b :
  keyCmp a b = (-1)%Z \/ keyCmp a b = 0%Z \/ keyCmp a b = 1%Z.
Proof.
  destruct a as [|x|x], b as [|y|y]; simpl; auto.
  - destruct (N.compare x y); simpl; auto.
  - destruct (String.compare x y); simpl; auto.
Qed.

Lemma keyCmp_lt_trans a b c :
  keyCmp a b = (-1)%Z -> keyCmp b c = (-1)%Z -> keyCmp a c = (-1)%Z.
Proof.
  destruct a as [|x|x], b as [|y|y], c as [|z|z]; simpl;
    try discriminate; auto.
  - destruct (N.compare_spec x y); try discriminate.
    destruct (N.compare_spec y z); try discriminate. intros _ _.
    assert (T : (x < z)%N) by lia. now apply N.compare_lt_iff in T as ->.
  - destruct (String.compare x y) eqn:E1; try discriminate.
    destruct (String.compare y z) eqn:E2; try discriminate. intros _ _.
    now rewrite (string_compare_lt_trans x y z E1 E2).
Qed.

Lemma keyCmp_trans a b c :
  (keyCmp a b <= 0)%Z -> (keyCmp b c <= 0)%Z -> (keyCmp a c <= 0)%Z.
Proof.
  intros H1 H2.
  destruct (keyCmp_range a b) as [L1|[E1|G1]]; [| |lia].
  - destruct (keyCmp_range b c) as [L2|[E2|G2]]; [| |lia].
    + rewrite (keyCmp_lt_trans a b c); auto. lia.
    + apply keyCmp_eq in E2. subst c. lia.
  - apply keyCmp_eq in E1. now subst b.
Qed.

Lemma keyOf_inj s o : okPart s -> okPart o -> keyOf s = keyOf o -> s = o.
Proof.
  unfold keyOf. intros Hs Ho.
  destruct s as [|c s]; destruct o as [|d o]; auto.
  - destruct (ParseUint (String d o)); discriminate.
  - destruct (ParseUint (String c s)); discriminate.
  - destruct Hs as [|[_ Zs]]; [discriminate|].
    destruct Ho as [|[_ Zo]]; [discriminate|].
    destruct (ParseUint (String c s)) as [n|] eqn:Es;
      destruct (ParseUint (String d o)) as [m|] eqn:Eo;
      intros K; try discriminate K; [|congruence].
    assert (E : n = m) by congruence. subst m.
    pose proof Es as Ds. pose proof Eo as Do.
    apply ParseUint_Some in Ds as (_ & _ & ds & Ds & _).
    apply ParseUint_Some in Do as (_ & _ & do & Do & _).
    apply uint_of_string_Some_digits in Ds, Do.
    eapply ParseUint_inj; eauto.
Qed.

Lemma comparePrePart_key s o :
  okPart s -> okPart o -> comparePrePart s o = keyCmp (keyOf s) (keyOf o).
Proof.
  intros Hs Ho. unfold comparePrePart.
  destruct (String.eqb_spec s o) as [->|N].
  - symmetry. now apply keyCmp_eq.
  - assert (K : keyOf s <> keyOf o) by (intros K; apply N, keyOf_inj; auto).
    destruct (String.eqb_spec s "") as [->|Ns].
    + unfold keyOf. destruct o as [|d o]; [congruence|].
      destruct (ParseUint (String d o)); reflexivity.
    + destruct (String.eqb_spec o "") as [->|No].
      * unfold keyOf. destruct s as [|c s]; [congruence|].
        destruct (ParseUint (String c s)); reflexivity.
      * unfold keyOf in *.
        destruct s as [|c s]; [congruence|]. destruct o as [|d o]; [congruence|].
        cbv beta iota in *.
        set (s1 := String c s) in *. set (s2 := String d o) in *.
        destruct (ParseUint s2) as [oi|], (ParseUint s1) as [si|];
          unfold keyCmp; auto.
        -- destruct (N.ltb_spec oi si) as [H|H].
           ++ apply N.compare_gt_iff in H. now rewrite H.
           ++ destruct (N.compare_spec si oi) as [E|?|?]; auto; [|lia].
              subst. congruence.
        -- destruct (String.compare s1 s2) eqn:E; auto.
           apply String.compare_eq_iff in E. congruence.
Qed.

(** *** Pre-releases *)

Lemma lexKeys_antisym a : forall b, lexKeys b a = (- lexKeys a b)%Z.
Proof.
  induction a as [|x a IH]; intros [|y b]; simpl; auto.
  rewrite (keyCmp_antisym x y), IH.
  destruct (Z.eqb_spec (keyCmp x y) 0) as [E|E].
  - now rewrite E.
  - destruct (Z.eqb_spec (- keyCmp x y) 0); [lia|reflexivity].
Qed.

Lemma lexKeys_range a : forall b,
  lexKeys a b = (-1)%Z \/ lexKeys a b = 0%Z \/ lexKeys a b = 1%Z.
Proof.
  induction a as [|x a IH]; intros [|y b]; simpl; auto.
  destruct (Z.eqb_spec (keyCmp x y) 0); auto.
  apply keyCmp_range.
Qed.

Lemma lexKeys_eq a : forall b, lexKeys a b = 0%Z <-> a = b.
Proof.
  induction a as [|x a IH]; intros [|y b]; simpl;
    split; try discriminate; auto.
  - destruct (Z.eqb_spec (keyCmp x y) 0) as [E|E]; [|contradiction].
    intros H. apply keyCmp_eq in E. apply IH in H. congruence.
  - intros [= -> ->]. rewrite (proj2 (keyCmp_eq y y) eq_refl). simpl.
    now apply IH.
Qed.

Lemma lexKeys_trans a : forall b c,
  (lexKeys a b <= 0)%Z -> (lexKeys b c <= 0)%Z -> (lexKeys a c <= 0)%Z.
Proof.
  induction a as [|x a IH]; intros [|y b] [|z c]; simpl; try lia.
  destruct (Z.eqb_spec (keyCmp x y) 0) as [E1|E1].
  - apply keyCmp_eq in E1. subst y.
    destruct (Z.eqb_spec (keyCmp x z) 0); auto. apply IH.
  - destruct (Z.eqb_spec (keyCmp y z) 0) as [E2|E2].
    + apply keyCmp_eq in E2. subst z.
      destruct (Z.eqb_spec (keyCmp x y) 0); [contradiction|auto].
    + intros H1 H2.
      assert (L1 : keyCmp x y = (-1)%Z)
        by (destruct (keyCmp_range x y) as [?|[?|?]]; lia).
      assert (L2 : keyCmp y z = (-1)%Z)
        by (destruct (keyCmp_range y z) as [?|[?|?]]; lia).
      rewrite (keyCmp_lt_trans x y z L1 L2). simpl. lia.
Qed.

Lemma keyCmp_empty_l o : o <> "" -> keyCmp KEmpty (keyOf o) = (-1)%Z.
Proof.
  destruct o as [|c o]; [congruence|]. intros _. unfold keyOf.
  destruct (ParseUint (String c o)); reflexivity.
Qed.

Lemma keyCmp_empty_r s : s <> "" -> keyCmp (keyOf s) KEmpty = 1%Z.
Proof.
  destruct s as [|c s]; [congruence|]. intros _. unfold keyOf.
  destruct (ParseUint (String c s)); reflexivity.
Qed.

(** The loop of [comparePrerelease] is the lexicographic order of the
    identifiers. *)
Lemma comparePreLoop_lex n : forall sparts oparts,
  Forall okIdent sparts -> Forall okIdent oparts ->
  (Nat.max (List.length sparts) (List.length oparts) <= n)%nat ->
  comparePreLoop n sparts oparts
  = lexKeys (map keyOf sparts) (map keyOf oparts).
Proof.
  induction n as [|n IH]; intros sparts oparts Hs Ho Hn.
  - destruct sparts, oparts; simpl in *; lia.
  - cbn [comparePreLoop].
    destruct sparts as [|s sparts], oparts as [|o oparts]; cbn [hd tl map].
    + rewrite IH by (auto; simpl; lia). reflexivity.
    + inversion Ho as [|? ? Io Ho']; subst.
      rewrite comparePrePart_key by (unfold okPart; auto).
      rewrite keyCmp_empty_l by apply Io. reflexivity.
    + inversion Hs as [|? ? Is Hs']; subst.
      rewrite comparePrePart_key by (unfold okPart; auto).
      rewrite keyCmp_empty_r by apply Is. reflexivity.
    + inversion Hs as [|? ? Is Hs']; inversion Ho as [|? ? Io Ho']; subst.
      rewrite comparePrePart_key by (unfold okPart; auto).
      cbn [lexKeys].
      destruct (Z.eqb_spec (keyCmp (keyOf s) (keyOf o)) 0); cbn [negb].
      * apply IH; auto. simpl in Hn. lia.
      * reflexivity.
Qed.

Lemma Split_nonnil s sep : strings.Split s sep <> [].
Proof.
  destruct s as [|c s]; simpl; [discriminate|].
  destruct (Ascii.eqb c sep); [discriminate|].
  destruct (strings.Split s sep); discriminate.
Qed.

Lemma Join_Split s sep : Join (strings.Split s sep) sep = s.
Proof.
  induction s as [|c s IH]; [reflexivity|]. cbn [strings.Split].
  pose proof (Split_nonnil s sep) as NE.
  destruct (Ascii.eqb_spec c sep) as [->|N].
  - cbn [Join]. destruct (strings.Split s sep) as [|p ps]; [congruence|].
    rewrite IH. reflexivity.
  - destruct (strings.Split s sep) as [|p ps]; [congruence|].
    rewrite <- IH. destruct ps; reflexivity.
Qed.

Lemma Split_inj s t sep : strings.Split s sep = strings.Split t sep -> s = t.
Proof.
  intros H. rewrite <- (Join_Split s sep), <- (Join_Split t sep). now rewrite H.
Qed.

Lemma validatePrerelease_ok p : validatePrerelease p = true -> okPre p.
Proof.
  unfold validatePrerelease. intros H. right.
  rewrite forallb_forall in H. apply Forall_forall. intros x Hx.
  specialize (H x Hx). unfold okIdent.
  destruct (String.eqb_spec x ""); [discriminate|]. split; [assumption|].
  intros D. now rewrite D in H.
Qed.

Lemma keyOf_map_inj a : forall b,
  Forall okIdent a -> Forall okIdent b ->
  map keyOf a = map keyOf b -> a = b.
Proof.
  induction a as [|x a IH]; intros [|y b] Ha Hb; simpl; try discriminate; auto.
  inversion Ha; inversion Hb; subst. intros [= K M].
  f_equal; [|now apply IH].
  apply keyOf_inj; unfold okPart; auto.
Qed.

Lemma comparePrerelease_lex p q :
  p <> "" -> q <> "" -> okPre p -> okPre q ->
  comparePrerelease p q
  = lexKeys (map keyOf (strings.Split p ".")) (map keyOf (strings.Split q ".")).
Proof.
  intros Np Nq [?|Hp] [?|Hq]; try contradiction.
  unfold comparePrerelease. now apply comparePreLoop_lex.
Qed.

Lemma comparePre_antisym p q :
  okPre p -> okPre q -> comparePre q p = (- comparePre p q)%Z.
Proof.
  intros Hp Hq. unfold comparePre.
  destruct (String.eqb_spec p ""), (String.eqb_spec q ""); simpl; auto.
  rewrite !comparePrerelease_lex by auto. apply lexKeys_antisym.
Qed.

Lemma comparePre_eq p q :
  okPre p -> okPre q -> comparePre p q = 0%Z <-> p = q.
Proof.
  intros Hp Hq. unfold comparePre.
  destruct (String.eqb_spec p ""), (String.eqb_spec q ""); simpl;
    try (split; [discriminate | congruence]); try (split; congruence).
  rewrite comparePrerelease_lex by auto. rewrite lexKeys_eq.
  destruct Hp as [?|Hp], Hq as [?|Hq]; try contradiction.
  split; [|congruence]. intros H.
  apply keyOf_map_inj in H; auto. now apply Split_inj in H.
Qed.

Lemma comparePre_trans p q r :
  okPre p -> okPre q -> okPre r ->
  (comparePre p q <= 0)%Z -> (comparePre q r <= 0)%Z ->
  (comparePre p r <= 0)%Z.
Proof.
  intros Hp Hq Hr. unfold comparePre.
  destruct (String.eqb_spec p ""), (String.eqb_spec q ""),
    (String.eqb_spec r ""); simpl; try lia.
  rewrite !comparePrerelease_lex by auto. apply lexKeys_trans.
Qed.

(** *** Versions *)

Lemma parseSegment_bound m n : parseSegment m = Some n -> (n < 2 ^ 64)%N.
Proof.
  unfold parseSegment. destruct m.
  - intros [= <-]. reflexivity.
  - intros H. now apply ParseUint_Some in H.
Qed.

Lemma NewVersion_fields s v :
  NewVersion s = Some v ->
  exists m1 m2 m3,
    versionRegex s = Some (m1, m2, m3, pre v, metadata v)
    /\ ParseUint m1 = Some (major v)
    /\ parseSegment m2 = Some (minor v)
    /\ parseSegment m3 = Some (patch v)
    /\ (pre v = "" \/ validatePrerelease (pre v) = true)
    /\ (metadata v = "" \/ validateMetadata (metadata v) = true)
    /\ original v = s.
Proof.
  unfold NewVersion.
  destruct (versionRegex s) as [[[[[m1 m2] m3] m5] m8]|]; [|discriminate].
  destruct (ParseUint m1) as [ma|] eqn:E1; [|discriminate].
  destruct (parseSegment m2) as [mi|] eqn:E2; [|discriminate].
  destruct (parseSegment m3) as [pa|] eqn:E3; [|discriminate].
  destruct ((String.eqb m5 "" || validatePrerelease m5)
            && (String.eqb m8 "" || validateMetadata m8)) eqn:C;
    [|discriminate].
  intros [= <-]. simpl. exists m1, m2, m3.
  apply andb_prop in C as [C1 C2].
  apply orb_prop in C1, C2.
  repeat split; auto.
  - destruct C1 as [C1|C1]; [left; now apply String.eqb_eq | now right].
  - destruct C2 as [C2|C2]; [left; now apply String.eqb_eq | now right].
Qed.

Lemma NewVersion_wf s v : NewVersion s = Some v -> wf v.
Proof.
  intros H. apply NewVersion_fields in H
    as (m1 & m2 & m3 & _ & H1 & H2 & H3 & Hp & Hm & _).
  apply ParseUint_Some in H1 as (_ & H1 & _).
  apply parseSegment_bound in H2, H3. repeat split; auto.
Qed.

Lemma wf_okPre v : wf v -> okPre (pre v).
Proof.
  intros (_ & _ & _ & [E|V] & _); [now left|].
  now apply validatePrerelease_ok.
Qed.

(** [Compare], component after component. *)
Lemma Compare_unfold v o :
  Compare v o =
    if (major v <? major o)%N then (-1)%Z
    else if (major o <? major v)%N then 1%Z
    else if (minor v <? minor o)%N then (-1)%Z
    else if (minor o <? minor v)%N then 1%Z
    else if (patch v <? patch o)%N then (-1)%Z
    else if (patch o <? patch v)%N then 1%Z
    else comparePre (pre v) (pre o).
Proof.
  unfold Compare, compareSegment, comparePre.
  destruct (major v <? major o)%N; [reflexivity|].
  destruct (major o <? major v)%N; [reflexivity|].
  destruct (minor v <? minor o)%N; [reflexivity|].
  destruct (minor o <? minor v)%N; [reflexivity|].
  destruct (patch v <? patch o)%N; [reflexivity|].
  destruct (patch o <? patch v)%N; reflexivity.
Qed.

Ltac split_ltb :=
  repeat match goal with
         | |- context [(?a <? ?b)%N] =>
             destruct (N.ltb_spec a b); try lia
         | H : context [(?a <? ?b)%N] |- _ =>
             destruct (N.ltb_spec a b); try lia
         end.

Lemma Compare_antisym_wf v o :
  wf v -> wf o -> Compare o v = (- Compare v o)%Z.
Proof.
  intros Hv Ho. rewrite !Compare_unfold. split_ltb.
  apply comparePre_antisym; now apply wf_okPre.
Qed.

Lemma Compare_trans_wf a b c :
  wf a -> wf b -> wf c ->
  (Compare a b <= 0)%Z -> (Compare b c <= 0)%Z -> (Compare a c <= 0)%Z.
Proof.
  intros Ha Hb Hc. rewrite !Compare_unfold. split_ltb.
  apply comparePre_trans; now apply wf_okPre.
Qed.

(** Equal versions agree on the numbers and on the pre-release; the
    build metadata plays no part. *)
Lemma Compare_eq_wf v o :
  wf v -> wf o ->
  Compare v o = 0%Z <->
  major v = major o /\ minor v = minor o /\ patch v = patch o
  /\ pre v = pre o.
Proof.
  intros Hv Ho. rewrite Compare_unfold.
  pose proof (comparePre_eq (pre v) (pre o) (wf_okPre v Hv) (wf_okPre o Ho))
    as E.
  split_ltb; try (split; [discriminate | intros (? & ? & ? & ?); lia]).
  rewrite E. split; [intros ?; repeat split; auto; lia | tauto].
Qed.

(** *** The canonical string parses back *)

Lemma containsOnly_impl (ok ok' : ascii -> bool) s :
  (forall c, ok c = true -> ok' c = true) ->
  containsOnly s ok = true -> containsOnly s ok' = true.
Proof.
  intros I. induction s as [|c s IH]; simpl; auto.
  intros H. apply andb_prop in H as [H1 H2]. now rewrite (I c H1), IH.
Qed.

Lemma isDigit_isAllowed c : isDigit c = true -> isAllowed c = true.
Proof. unfold isDigit, isAllowed. intros ->. reflexivity. Qed.

Lemma validatePrerelease_isIdentifiers p :
  validatePrerelease p = true -> isIdentifiers p = true.
Proof.
  unfold validatePrerelease, isIdentifiers. rewrite !forallb_forall.
  intros H x Hx. specialize (H x Hx).
  destruct (String.eqb x ""); [discriminate|]. simpl.
  destruct (containsOnly x isDigit) eqn:D; [|assumption].
  eapply containsOnly_impl; [apply isDigit_isAllowed | exact D].
Qed.

Lemma Split_chars (ok : ascii -> bool) sep s :
  forallb (fun p => containsOnly p ok) (strings.Split s sep) = true ->
  containsOnly s (fun c => ok c || Ascii.eqb c sep) = true.
Proof.
  induction s as [|c s IH]; [reflexivity|]. cbn [strings.Split containsOnly].
  destruct (Ascii.eqb c sep).
  - cbn [forallb containsOnly]. rewrite orb_true_r. simpl. exact IH.
  - pose proof (Split_nonnil s sep) as NE.
    destruct (strings.Split s sep) as [|p ps]; [congruence|].
    cbn [forallb containsOnly] in *. intros H.
    apply andb_prop in H as [H1 H2]. apply andb_prop in H1 as [H0 H1].
    rewrite H0. simpl. apply IH. now rewrite H1, H2.
Qed.

Lemma isIdentifiers_notPlus p :
  isIdentifiers p = true -> containsOnly p notPlus = true.
Proof.
  unfold isIdentifiers. intros H.
  assert (H' : forallb (fun p => containsOnly p isAllowed)
                 (strings.Split p ".") = true).
  { rewrite forallb_forall in *. intros x Hx. specialize (H x Hx).
    now apply andb_prop in H as [_ H]. }
  apply Split_chars in H'. revert H'. apply containsOnly_impl.
  intros c Hc. unfold notPlus.
  destruct (Ascii.eqb_spec c "+") as [->|]; [discriminate|reflexivity].
Qed.

Lemma cutAt_none p :
  containsOnly p notPlus = true -> cutAt "+" p = (p, None).
Proof.
  induction p as [|c p IH]; simpl; auto. intros H.
  apply andb_prop in H as [H1 H2]. unfold notPlus in H1.
  destruct (Ascii.eqb c "+"); [discriminate|]. now rewrite IH.
Qed.

Lemma cutAt_app p m :
  containsOnly p notPlus = true ->
  cutAt "+" (p ++ String "+" m) = (p, Some m).
Proof.
  induction p as [|c p IH]; simpl; auto. intros H.
  apply andb_prop in H as [H1 H2]. unfold notPlus in H1.
  destruct (Ascii.eqb c "+"); [discriminate|]. now rewrite IH.
Qed.

Lemma spanDigits_app d r :
  containsOnly d isDigit = true ->
  match r with String c _ => isDigit c = false | EmptyString => True end ->
  spanDigits (d ++ r) = (d, r).
Proof.
  intros Hd Hr. unfold spanDigits. induction d as [|c d IH]; simpl in *.
  - destruct r as [|c r]; [reflexivity|]. simpl. now rewrite Hr.
  - apply andb_prop in Hd as [H1 H2]. now rewrite H1, IH.
Qed.

Lemma formatUint_head n :
  exists c r, formatUint n = String c r /\ isDigit c = true.
Proof.
  pose proof (formatUint_nonempty n) as NE.
  pose proof (formatUint_digits n) as D.
  destruct (formatUint n) as [|c r]; [congruence|].
  simpl in D. apply andb_prop in D as [D _]. eauto.
Qed.

Lemma dotNumber_format n r :
  match r with String c _ => isDigit c = false | EmptyString => True end ->
  dotNumber (String "." (formatUint n ++ r)) = (String "." (formatUint n), r).
Proof.
  intros Hr. unfold dotNumber.
  rewrite spanDigits_app by (auto using formatUint_digits).
  pose proof (formatUint_nonempty n). now destruct (formatUint n).
Qed.

Lemma parseSegment_format n :
  (n < 2 ^ 64)%N -> parseSegment (String "." (formatUint n)) = Some n.
Proof.
  intros H. unfold parseSegment.
  change (strings.TrimPrefix (String "." (formatUint n)) ".")
    with (formatUint n).
  now apply ParseUint_formatUint.
Qed.

Lemma suffixOf_head p m :
  match suffixOf p m with
  | String c _ => isDigit c = false
  | EmptyString => True
  end.
Proof.
  unfold suffixOf.
  destruct (String.eqb p ""), (String.eqb m ""); simpl; auto.
Qed.

Lemma append_nil_r s : s ++ "" = s.
Proof. induction s as [|c s IH]; simpl; congruence. Qed.

Lemma append_assoc (a b c : string) : (a ++ b) ++ c = a ++ (b ++ c).
Proof. induction a as [|x a IH]; simpl; congruence. Qed.

Lemma preAndMetadata_suffix p m :
  (p = "" \/ validatePrerelease p = true) ->
  (m = "" \/ validateMetadata m = true) ->
  preAndMetadata (suffixOf p m) = Some (p, m).
Proof.
  intros Hp Hm. unfold suffixOf.
  assert (Ip : p <> "" -> isIdentifiers p = true).
  { intros N. destruct Hp; [contradiction|].
    now apply validatePrerelease_isIdentifiers. }
  assert (Im : m <> "" -> isIdentifiers m = true).
  { intros N. destruct Hm; [contradiction|assumption]. }
  destruct (String.eqb_spec p "") as [->|Np],
           (String.eqb_spec m "") as [->|Nm]; cbn [append preAndMetadata].
  - reflexivity.
  - now rewrite Im.
  - rewrite append_nil_r, cutAt_none by auto using isIdentifiers_notPlus.
    now rewrite Ip.
  - rewrite cutAt_app by auto using isIdentifiers_notPlus.
    now rewrite Ip, Im.
Qed.

(** The canonical string of a version [NewVersion] returned parses to
    the same version; only the text it was read from differs. *)
Lemma NewVersion_String v :
  wf v ->
  NewVersion (Version_String v)
  = Some (mkVersion (major v) (minor v) (patch v) (pre v) (metadata v)
            (Version_String v)).
Proof.
  intros (H1 & H2 & H3 & Hp & Hm).
  assert (R : versionRegex (Version_String v)
              = Some (formatUint (major v),
                      String "." (formatUint (minor v)),
                      String "." (formatUint (patch v)),
                      pre v, metadata v)).
  { unfold Version_String, versionRegex.
    fold (suffixOf (pre v) (metadata v)).
    destruct (formatUint_head (major v)) as (c & r & E & D).
    assert (S0 : snd (optionalV
                        (formatUint (major v) ++ "." ++ formatUint (minor v)
                         ++ "." ++ formatUint (patch v)
                         ++ suffixOf (pre v) (metadata v)))
                 = formatUint (major v) ++ "." ++ formatUint (minor v)
                   ++ "." ++ formatUint (patch v)
                   ++ suffixOf (pre v) (metadata v)).
    { rewrite E. cbn [append optionalV].
      destruct (Ascii.eqb_spec c "v") as [->|]; [discriminate D|reflexivity]. }
    rewrite S0. clear S0 E D c r.
    rewrite spanDigits_app
      by (auto using formatUint_digits; reflexivity).
    pose proof (formatUint_nonempty (major v)) as N1.
    destruct (formatUint (major v)) as [|c1 r1] eqn:E1; [congruence|].
    cbn [append].
    rewrite dotNumber_format by reflexivity.
    rewrite dotNumber_format by apply suffixOf_head.
    now rewrite preAndMetadata_suffix. }
  unfold NewVersion. rewrite R.
  rewrite ParseUint_formatUint, !parseSegment_format by assumption.
  replace ((String.eqb (pre v) "" || validatePrerelease (pre v))
           && (String.eqb (metadata v) "" || validateMetadata (metadata v)))
    with true; [reflexivity|].
  symmetry. apply andb_true_intro. split; apply orb_true_intro.
  - destruct Hp as [->|Hp]; auto.
  - destruct Hm as [->|Hm]; auto.
Qed.

Lemma String_nonempty_wf (v : Version) : Version_String v <> "".
Proof.
  unfold Version_String.
  pose proof (formatUint_nonempty (major v)) as NE.
  destruct (formatUint (major v)); [congruence|discriminate].
Qed.

Lemma Version_String_no_v (v : Version) :
  strings.HasPrefix (Version_String v) "v" = false.
Proof.
  unfold Version_String.
  destruct (formatUint_head (major v)) as (c & r & -> & D).
  unfold strings.HasPrefix. cbn [append strings.CutPrefix].
  destruct (Ascii.eqb_spec c "v") as [->|]; [discriminate D|reflexivity].
Qed.

(** [Masterminds] instantiates the interface and keeps its laws. *)
Lemma parsed_wf (v : Version) : parsed (L:=Masterminds_Semver) v -> wf v.
Proof. intros [s H]. eapply NewVersion_wf, H. Qed.

End MastermindsFacts.

#[export] Instance Masterminds_laws : SemverLaws Masterminds_Semver.
Proof.
  constructor.
  - intros v o Hv Ho.
    apply MastermindsFacts.Compare_antisym_wf;
      now apply MastermindsFacts.parsed_wf.
  - intros a b c Ha Hb Hc.
    apply MastermindsFacts.Compare_trans_wf;
      now apply MastermindsFacts.parsed_wf.
  - intros v Hv. apply MastermindsFacts.String_nonempty_wf.
  - intros v Hv. apply MastermindsFacts.parsed_wf in Hv.
    eexists. split; [apply MastermindsFacts.NewVersion_String, Hv|].
    split; [|reflexivity].
    apply MastermindsFacts.Compare_eq_wf; simpl; auto;
      destruct Hv as (? & ? & ? & ? & ?); repeat split; auto.
Qed.


(** ** Insertion sort meets the contract of [sort.Sort] *)

Lemma insertBy_perm {A} (less : A -> A -> bool) x l :
  Permutation (insertBy less x l) (x :: l).
Proof.
  induction l as [|y l IH]; simpl; [reflexivity|].
  destruct (less x y); [reflexivity|].
  rewrite IH. apply perm_swap.
Qed.

Lemma insertionSort_perm {A} (less : A -> A -> bool) l :
  Permutation (insertionSort A less l) l.
Proof.
  unfold insertionSort. induction l as [|x l IH]; simpl; [constructor|].
  rewrite insertBy_perm. now constructor.
Qed.

Lemma insertBy_sorted {A} (less : A -> A -> bool) (u : list A) x l :
  less_ok less u -> In x u -> (forall y, In y l -> In y u) ->
  Sorted (fun a b => less b a = false) l ->
  Sorted (fun a b => less b a = false) (insertBy less x l).
Proof.
  intros [Irr Tr _] Hx. induction l as [|y l IH]; intros Hl Hs; simpl.
  - repeat constructor.
  - inversion Hs as [|? ? Hs' Hhd]; subst.
    destruct (less x y) eqn:E.
    + constructor; [assumption|]. constructor.
      destruct (less y x) eqn:E'; [|reflexivity].
      rewrite <- (Irr x Hx). symmetry.
      apply (Tr x y x); auto. apply Hl. now left.
    + constructor.
      * apply IH; [|assumption]. intros z Hz. apply Hl. now right.
      * destruct l as [|z l]; simpl; [now constructor|].
        destruct (less x z); constructor; [assumption|].
        now inversion Hhd.
Qed.

Lemma insertionSort_contract : GoSortContract insertionSort.
Proof.
  constructor.
  - intros A less l. apply insertionSort_perm.
  - intros A less l Hok. unfold sort_Sort, insertionSort.
    assert (G : forall m, (forall y, In y m -> In y l) ->
                Sorted (fun a b => less b a = false)
                       (fold_right (insertBy less) [] m)).
    { induction m as [|x m IH]; intros Hm; simpl; [constructor|].
      apply (insertBy_sorted less l); auto.
      - apply Hm. now left.
      - intros y Hy. apply Hm. right.
        eapply Permutation_in; [apply (insertionSort_perm less m)|exact Hy].
      - apply IH. intros y Hy. apply Hm. now right. }
    apply G. auto.
Qed.

(** ** Runs *)

(** How [checkVersion] ends. *)
Lemma checkVersion_result {L : Semver} (w : World) (versionSpec : string) :
  snd (checkVersion w versionSpec) =
    match gopVersionFunc w with
    | Val actualVersion =>
        match NewVersion versionSpec with
        | None => Err (Errorf ("invalid version spec: " ++ versionSpec))
        | Some expected =>
            match NewVersion actualVersion with
            | None =>
                Err (Errorf ("invalid installed version: " ++ actualVersion))
            | Some actual =>
                if (Compare expected actual =? 0)%Z then Val tt
                else Err (Errorf ("installed gop version "
                                  ++ Version_String actual
                                  ++ " does not match expected version "
                                  ++ Version_String expected))
            end
        end
    | Err e => Err e
    | Panic msg => Panic msg
    end.
Proof.
  unfold checkVersion, info, call, emit, fail, bind, Equal.
  destruct (gopVersionFunc w) as [actualVersion|e|msg]; try reflexivity.
  destruct (NewVersion versionSpec) as [expected|]; [|reflexivity].
  destruct (NewVersion actualVersion) as [actual|]; [|reflexivity].
  destruct (Compare expected actual =? 0)%Z; reflexivity.
Qed.

(** [resolveVersionInput] prints at most its warning. *)
Lemma resolveVersionInput_trace (w : World) :
  fst (resolveVersionInput w) = []
  \/ fst (resolveVersionInput w)
     = [Stdout "::warning::Both gop-version and gop-version-file inputs are specified, only gop-version will be used"].
Proof.
  unfold resolveVersionInput, parseGopVersionFile.
  destruct (String.eqb (Getenv w "INPUT_GOP_VERSION") "");
    destruct (String.eqb (Getenv w "INPUT_GOP_VERSION_FILE") "");
    cbn; auto.
  destruct (statIsNotExist w _); cbn; auto.
  destruct (ReadFile w _); cbn; auto.
  destruct (_ || _); [destruct (gopVersionRegexp _)|]; cbn; auto.
Qed.

(** What [InstallGop] does once a version, or none, is selected: the
    announcement, the output, the clone, and then only events that
    follow a clone. *)
Lemma InstallGop_after_selection {L : Semver} {S : GoSort} (w : World)
    (versionSpec version : string) (tags : list string)
    (t0 t1 : list event) :
  resolveVersionInput w = (t0, Val versionSpec) ->
  fetchTags w = Val tags ->
  selectVersion w versionSpec (sortVersions (filter isValidVersion tags))
  = (t1, Val version) ->
  Getenv w "GITHUB_OUTPUT" <> "" ->
  exists tail,
    fst (InstallGop w)
    = (t0 ++ [FetchTags] ++ t1
       ++ [Stdout (fst (fst (checkoutOf versionSpec version)));
           SetOutput "gop-version-verified"
                     (snd (fst (checkoutOf versionSpec version)));
           CloneBranchOrTag (snd (checkoutOf versionSpec version))]
       ++ tail)%list
    /\ Forall (afterCloneEvent version) tail.
Proof.
  intros R T Sel G. unfold InstallGop. rewrite R, T.
  cbn [bind call]. rewrite Sel. cbn [bind].
  unfold checkoutOf, setOutput, info, warning, emit.
  apply String.eqb_neq in G. rewrite G. cbn [negb].
  destruct (String.eqb_spec version "") as [V|V]; cbn [negb bind ret app fst snd].
  - destruct (cloneBranchOrTag w versionSpec) as [dir|e|m]; cbn;
      [|eexists; split; [reflexivity|constructor]..].
    destruct (install w dir) as [[]|e|m]; cbn;
      [|eexists; split; [reflexivity|repeat constructor]..].
    destruct (gopVersionFunc w) as [gv|e|m]; cbn;
      eexists; (split; [reflexivity|repeat constructor]).
  - destruct (cloneBranchOrTag w ("v" ++ version)) as [dir|e|m]; cbn;
      [|eexists; split; [reflexivity|constructor]..].
    destruct (install w dir) as [[]|e|m]; cbn;
      [|eexists; split; [reflexivity|repeat constructor]..].
    unfold checkVersion, info, call, emit, fail, bind.
    destruct (gopVersionFunc w) as [gv|e|m]; cbn;
      [|eexists; split; [reflexivity|repeat constructor; assumption]..].
    destruct (NewVersion version) as [ev|]; cbn;
      [|eexists; split; [reflexivity|repeat constructor; assumption]].
    destruct (NewVersion gv) as [av|]; cbn;
      [|eexists; split; [reflexivity|repeat constructor; assumption]].
    destruct (Equal ev av); cbn;
      eexists; (split; [reflexivity|repeat constructor; assumption]).
Qed.

Lemma isValidVersion_nonempty {L : Semver} (x : string) :
  isValidVersion x = true -> x <> "".
Proof. intros H ->. discriminate H. Qed.

(** The sorted valid versions have the length of the valid tags and
    hold no empty string. *)
Lemma sortVersions_valid {L : Semver} {HL : SemverLaws L}
    {S : GoSort} {HS : GoSortContract S} (tags : list string) :
  List.length (sortVersions (filter isValidVersion tags))
  = List.length (filter isValidVersion tags)
  /\ forall x, In x (sortVersions (filter isValidVersion tags)) -> x <> "".
Proof.
  destruct (sortVersions_sorted (filter isValidVersion tags))
    as (Hlen & Hskip & sorted & P & Hfirst & _).
  split; [exact Hlen|]. intros x Hx.
  rewrite <- (firstn_skipn
                (List.length (parseVersions (filter isValidVersion tags)))
                (sortVersions (filter isValidVersion tags))) in Hx.
  rewrite Hfirst, Hskip in Hx. apply in_app_or in Hx as [Hx|Hx].
  - apply in_map_iff in Hx as (v & <- & Hv). apply String_nonempty.
    assert (Hin : In v (parseEach (filter isValidVersion tags))).
    { rewrite <- parseVersions_parseEach. eapply Permutation_in; eauto. }
    apply parseEach_In in Hin as (raw & _ & Hraw). now exists raw.
  - assert (Hin : In x (filter isValidVersion tags)).
    { rewrite <- (firstn_skipn
                    (List.length (parseVersions (filter isValidVersion tags)))
                    (filter isValidVersion tags)).
      apply in_or_app. now right. }
    apply filter_In in Hin as [_ Hin]. now apply isValidVersion_nonempty.
Qed.

(** The first of the sorted valid versions is the canonical string of a
    version that no version among the valid tags exceeds, when one of
    them parses. *)
Lemma sortVersions_head_highest {L : Semver} {HL : SemverLaws L}
    {S : GoSort} {HS : GoSortContract S} (versions : list string) :
  parseVersions versions <> [] ->
  exists m,
    In m (parseVersions versions)
    /\ hd_error (sortVersions versions) = Some (Version_String m)
    /\ forall v, In v (parseVersions versions) -> (Compare v m <= 0)%Z.
Proof.
  intros NE.
  destruct (sortVersions_sorted versions)
    as (_ & _ & sorted & P & Hfirst & Hsorted).
  destruct sorted as [|m sorted].
  { apply Permutation_nil in P. contradiction. }
  assert (Hm : In m (parseVersions versions))
    by (eapply Permutation_in; [exact P|now left]).
  exists m. split; [exact Hm|]. split.
  - assert (Hn : List.length (parseVersions versions)
                 = Datatypes.S (List.length sorted))
      by (symmetry; apply (Permutation_length P)).
    rewrite Hn in Hfirst.
    destruct (sortVersions versions) as [|x out]; [discriminate Hfirst|].
    cbn in Hfirst. injection Hfirst as -> _. reflexivity.
  - intros v Hv.
    apply (Permutation_in _ (Permutation_sym P)) in Hv as [<-|Hv].
    + rewrite Compare_refl; [lia|].
      rewrite parseVersions_parseEach in Hm.
      apply parseEach_In in Hm as (raw & _ & Hraw). now exists raw.
    + inversion Hsorted as [|? ? _ Hall]; subst.
      rewrite Forall_forall in Hall. now apply Hall.
Qed.

Section SelectVersion.
Context {L : Semver} (w : World).

Lemma selectVersion_latest versionSpec version rest :
  versionSpec = "" \/ versionSpec = "latest" ->
  selectVersion w versionSpec (version :: rest)
  = ([Stdout ("::warning::No gop-version specified, using latest version: "
              ++ version)], Val version).
Proof. intros [-> | ->]; reflexivity. Qed.

Lemma selectVersion_latest_none versionSpec :
  versionSpec = "" \/ versionSpec = "latest" ->
  selectVersion w versionSpec []
  = ([], Panic "runtime error: index out of range [0] with length 0").
Proof. intros [-> | ->]; reflexivity. Qed.

Lemma selectVersion_other versionSpec validVersions :
  versionSpec <> "" -> versionSpec <> "latest" ->
  selectVersion w versionSpec validVersions
  = if String.eqb (maxSatisfying validVersions versionSpec) "" then
      match fetchBranches w with
      | Val branches =>
          if contains branches versionSpec then
            ([Stdout ("::warning::No gop-version found that satisfies '"
                      ++ versionSpec ++ "', trying branches...");
              FetchBranches], Val "")
          else
            ([Stdout ("::warning::No gop-version found that satisfies '"
                      ++ versionSpec ++ "', trying branches...");
              FetchBranches],
             Err (Errorf ("no gop-version found that satisfies '"
                          ++ versionSpec ++ "' in branches or tags")))
      | Err e =>
          ([Stdout ("::warning::No gop-version found that satisfies '"
                    ++ versionSpec ++ "', trying branches...");
            FetchBranches], Err e)
      | Panic msg =>
          ([Stdout ("::warning::No gop-version found that satisfies '"
                    ++ versionSpec ++ "', trying branches...");
            FetchBranches], Panic msg)
      end
    else ([], Val (maxSatisfying validVersions versionSpec)).
Proof.
  intros N1 N2. unfold selectVersion.
  apply String.eqb_neq in N1, N2. rewrite N1, N2. cbn [orb].
  destruct (String.eqb_spec (maxSatisfying validVersions versionSpec) "")
    as [E|E]; [|reflexivity].
  unfold warning, emit, call, bind, fail, ret.
  destruct (fetchBranches w) as [branches|e|m]; try reflexivity.
  destruct (contains branches versionSpec); cbn; [|reflexivity].
  now rewrite E.
Qed.

End SelectVersion.

Lemma In_run_trace (e a b c : event) (t0 t1 tail : list event) :
  In e (t0 ++ [FetchTags] ++ t1 ++ [a; b; c] ++ tail)%list ->
  In e t0 \/ e = FetchTags \/ In e t1 \/ e = a \/ e = b \/ e = c \/ In e tail.
Proof.
  intros H. apply in_app_or in H as [H|H]; [auto|].
  cbn in H. destruct H as [H|H]; [auto|].
  apply in_app_or in H as [H|H]; [auto|].
  cbn in H. destruct H as [H|[H|[H|H]]]; auto 10.
Qed.

Lemma In_resolve_trace (w : World) (t0 : list event) (r : res string)
    (e : event) :
  resolveVersionInput w = (t0, r) -> In e t0 ->
  e = Stdout "::warning::Both gop-version and gop-version-file inputs are specified, only gop-version will be used".
Proof.
  intros R H. pose proof (resolveVersionInput_trace w) as T.
  rewrite R in T. cbn in T. destruct T as [-> | ->]; [destruct H|].
  destruct H as [<-|[]]. reflexivity.
Qed.

(** ** More on the scanners *)

Lemma isDotted_tail (ok : ascii -> bool) c d a :
  Ascii.eqb d "." = false ->
  isDotted ok (String c (String d a)) = true ->
  isDotted ok (String d a) = true.
Proof.
  unfold isDotted. cbn [strings.Split]. intros Hd. rewrite Hd.
  destruct (Ascii.eqb c "."); [cbn; discriminate|].
  destruct (strings.Split a ".") as [|p ps]; cbn.
  - intros H. apply andb_prop in H as [H _]. apply andb_prop in H as [H1 H2].
    now rewrite H2.
  - intros H. apply andb_prop in H as [H H']. apply andb_prop in H as [H1 H2].
    now rewrite H2, H'.
Qed.

Lemma isDotted_after_dot (ok : ascii -> bool) c a :
  ok "."%char = false ->
  isDotted ok (String c (String "." a)) = true ->
  isDotted ok a = true /\ a <> "".
Proof.
  unfold isDotted. cbn [strings.Split]. intros Hdot.
  destruct (Ascii.eqb_spec c ".") as [->|N]; [cbn; discriminate|].
  cbn. intros H. apply andb_prop in H as [_ H]. split; [exact H|].
  intros ->. discriminate H.
Qed.

(** [spanDotted] finds a dotted run that cannot go on. *)
Lemma spanDotted_complete (ok : ascii -> bool) (n : nat) : forall v rest,
  ok "."%char = false ->
  (String.length v <= n)%nat ->
  v <> "" -> isDotted ok v = true -> continues ok rest = false ->
  spanDotted ok (v ++ rest) = (v, rest).
Proof.
  induction n as [|n IH]; intros v rest Hdot Hn NE D K.
  - destruct v; [contradiction|simpl in Hn; lia].
  - destruct v as [|c v']; [contradiction|].
    pose proof (isDotted_head ok c v' D) as Hc.
    cbn [append spanDotted]. rewrite Hc.
    assert (NoDot : forall s,
               match s with
               | String d _ => Ascii.eqb d "." = false
               | EmptyString => True
               end ->
               forall a r, spanDotted ok s = (a, r) ->
               match s with
               | String "." s'' =>
                   match spanDotted ok s'' with
                   | (EmptyString, _) => (String c EmptyString, s)
                   | (a, r) => (String c (String "." a), r)
                   end
               | _ => let (a, r) := spanDotted ok s in (String c a, r)
               end = (String c a, r)).
    { intros s Hs a r E. destruct s as [|d s'']; [now rewrite E|].
      destruct d as [[|] [|] [|] [|] [|] [|] [|] [|]];
        try (now rewrite E). discriminate Hs. }
    destruct v' as [|d v''].
    + (* the run ends here *)
      cbn [append]. destruct rest as [|x rest'].
      * reflexivity.
      * cbn [continues] in K. apply orb_false_elim in K as [K1 K2].
        destruct (Ascii.eqb_spec x ".") as [->|Nx].
        -- cbn in K2.
           assert (E : spanDotted ok rest'
                       = (EmptyString, rest')).
           { destruct rest' as [|y r]; [reflexivity|].
             cbn [spanDotted]. now rewrite K2. }
           now rewrite E.
        -- assert (E : spanDotted ok (String x rest')
                       = (EmptyString, String x rest')).
           { cbn [spanDotted]. now rewrite K1. }
           apply (NoDot (String x rest')); [|exact E].
           now destruct (Ascii.eqb_spec x ".").
    + destruct (Ascii.eqb_spec d ".") as [->|Nd].
      * destruct (isDotted_after_dot ok c v'' Hdot D) as [D' NE'].
        cbn [append].
        rewrite (IH v'' rest Hdot ltac:(simpl in Hn; lia) NE' D' K).
        destruct v''; [contradiction|reflexivity].
      * assert (Hd : Ascii.eqb d "." = false)
          by now destruct (Ascii.eqb_spec d ".").
        pose proof (isDotted_tail ok c d v'' Hd D) as D'.
        apply (NoDot (String d v'' ++ rest)); [exact Hd|].
        apply IH; auto; [simpl in Hn; simpl; lia|discriminate].
Qed.

Lemma gopVersionRegexp_complete v rest :
  v <> "" -> isDotted isDigit v = true -> continues isDigit rest = false ->
  gopVersionRegexp ("gop " ++ v ++ rest) = Some v.
Proof.
  intros NE D K. unfold gopVersionRegexp.
  rewrite (proj2 (CutPrefix_Some "gop " ("gop " ++ v ++ rest) (v ++ rest))
             eq_refl).
  rewrite (spanDotted_complete isDigit _ v rest eq_refl (le_n _) NE D K).
  destruct v; [contradiction|reflexivity].
Qed.

(** ** [strings.TrimSpace] on white space of one byte *)

Lemma graphic_not_space c :
  isAsciiGraphic c = true ->
  strings.asciiSpace c = false
  /\ (forall b, strings.space2 c b = false)
  /\ (forall b, strings.space2 b c = false)
  /\ (forall b d, strings.space3 c b d = false)
  /\ (forall b d, strings.space3 d b c = false).
Proof.
  unfold isAsciiGraphic. intros H. apply andb_prop in H as [H1 H2].
  apply N.ltb_lt in H1. apply negb_true_iff in H2.
  split; [exact H2|].
  unfold strings.space2, strings.space3.
  repeat split; intros;
    repeat match goal with
           | |- context [(N_of_ascii c =? ?k)%N] =>
               destruct (N.eqb_spec (N_of_ascii c) k); [lia|]
           | |- context [(?k <=? N_of_ascii c)%N] =>
               destruct (N.leb_spec k (N_of_ascii c)); [lia|]
           end;
    cbn [andb orb]; rewrite ?andb_false_r; reflexivity.
Qed.

Lemma trimLeft_graphic k c l :
  isAsciiGraphic c = true -> strings.trimLeft k (c :: l) = c :: l.
Proof.
  intros H. destruct (graphic_not_space c H) as (A & B & _ & C & _).
  destruct k; [reflexivity|]. cbn [strings.trimLeft]. rewrite A.
  destruct l as [|b l]; [reflexivity|]. rewrite B.
  destruct l as [|d l]; [reflexivity|]. now rewrite C.
Qed.

Lemma trimRightRev_graphic k c r :
  isAsciiGraphic c = true -> strings.trimRightRev k (c :: r) = c :: r.
Proof.
  intros H. destruct (graphic_not_space c H) as (A & _ & B & _ & C).
  destruct k; [reflexivity|]. cbn [strings.trimRightRev]. rewrite A.
  destruct r as [|b r]; [reflexivity|]. rewrite B.
  destruct r as [|d r]; [reflexivity|]. now rewrite C.
Qed.

Lemma trimLeft_spaces ws : forall k l,
  Forall (fun c => strings.asciiSpace c = true) ws ->
  strings.trimLeft (List.length ws + k) (ws ++ l)%list = strings.trimLeft k l.
Proof.
  induction ws as [|c ws IH]; intros k l H; [reflexivity|].
  inversion H as [|? ? Hc Hws]; subst. cbn. rewrite Hc. now apply IH.
Qed.

Lemma trimRightRev_spaces ws : forall k r,
  Forall (fun c => strings.asciiSpace c = true) ws ->
  strings.trimRightRev (List.length ws + k) (ws ++ r)%list
  = strings.trimRightRev k r.
Proof.
  induction ws as [|c ws IH]; intros k r H; [reflexivity|].
  inversion H as [|? ? Hc Hws]; subst. cbn. rewrite Hc. now apply IH.
Qed.

Lemma list_ascii_of_string_app a b :
  list_ascii_of_string (a ++ b)
  = (list_ascii_of_string a ++ list_ascii_of_string b)%list.
Proof. induction a as [|c a IH]; cbn; congruence. Qed.

Lemma list_ascii_length s :
  List.length (list_ascii_of_string s) = String.length s.
Proof. induction s as [|c s IH]; cbn; congruence. Qed.

Lemma containsOnly_Forall s ok :
  containsOnly s ok = true ->
  Forall (fun c => ok c = true) (list_ascii_of_string s).
Proof.
  induction s as [|c s IH]; cbn; [constructor|].
  intros H. apply andb_prop in H as [H1 H2]. constructor; auto.
Qed.

(** White space of one byte around a text that starts and ends with a
    graphic byte is what [strings.TrimSpace] removes. *)
Lemma TrimSpace_bounded ws core ws' :
  isAsciiSpaces ws = true -> isAsciiSpaces ws' = true ->
  isBounded core = true ->
  strings.TrimSpace (ws ++ core ++ ws') = core.
Proof.
  intros Hws Hws' Hc. unfold strings.TrimSpace.
  apply containsOnly_Forall in Hws, Hws'.
  rewrite <- list_ascii_length, !list_ascii_of_string_app.
  set (lw := list_ascii_of_string ws) in *.
  set (lc := list_ascii_of_string core) in *.
  set (lw' := list_ascii_of_string ws') in *.
  unfold isBounded in Hc. fold lc in Hc.
  destruct lc as [|first lc'] eqn:Elc; [discriminate|].
  destruct (rev (first :: lc')) as [|last rc] eqn:Erev; [discriminate|].
  apply andb_prop in Hc as [Hfirst Hlast].
  rewrite length_app.
  rewrite (trimLeft_spaces lw _ _ Hws).
  cbn [app]. rewrite (trimLeft_graphic _ first _ Hfirst).
  change (first :: (lc' ++ lw')%list) with ((first :: lc') ++ lw')%list.
  replace (List.length ((first :: lc') ++ lw')%list)
    with (List.length (rev lw') + List.length (first :: lc'))%nat
    by (rewrite length_app, length_rev; lia).
  rewrite rev_app_distr, Erev.
  rewrite trimRightRev_spaces
    by (apply Forall_forall; intros x Hx; apply in_rev in Hx;
        rewrite Forall_forall in Hws'; now apply Hws').
  rewrite (trimRightRev_graphic _ last _ Hlast).
  rewrite <- Erev, rev_involutive. subst lc. rewrite <- Elc.
  apply string_of_list_ascii_of_string.
Qed.

(** ** Splitting lines and fields *)

Lemma Split_without s sep :
  without sep s = true -> strings.Split s sep = [s].
Proof.
  unfold without. induction s as [|c s IH]; cbn; [reflexivity|].
  intros H. apply andb_prop in H as [H1 H2]. apply negb_true_iff in H1.
  now rewrite H1, IH.
Qed.

Lemma Split_app_sep a b sep :
  without sep a = true ->
  strings.Split (a ++ String sep b) sep = a :: strings.Split b sep.
Proof.
  unfold without. induction a as [|c a IH]; cbn.
  - now rewrite Ascii.eqb_refl.
  - intros H. apply andb_prop in H as [H1 H2]. apply negb_true_iff in H1.
    now rewrite H1, IH.
Qed.

Lemma without_app c a b :
  without c a = true -> without c b = true -> without c (a ++ b) = true.
Proof.
  unfold without. induction a as [|x a IH]; cbn; [auto|].
  intros H Hb. apply andb_prop in H as [H1 H2]. now rewrite H1, IH.
Qed.

Lemma Split_lsRemoteOutput refs tail :
  Forall wellFormedRef refs ->
  strings.Split (lsRemoteOutput refs ++ tail) lf
  = (map lsRemoteLine refs
     ++ strings.Split tail lf)%list.
Proof.
  induction 1 as [|[sha ref] refs (H1 & H2 & H3 & H4) _ IH]; [reflexivity|].
  cbn [lsRemoteOutput map app fst snd lsRemoteLine] in *. unfold lsRemoteLine. cbn [fst snd].
  replace ((sha ++ String tab (ref ++ String lf (lsRemoteOutput refs)))
           ++ tail)
    with ((sha ++ String tab ref) ++ String lf (lsRemoteOutput refs ++ tail)).
  - rewrite (Split_app_sep (sha ++ String tab ref)
               (lsRemoteOutput refs ++ tail) lf).
    + now rewrite IH.
    + apply without_app; [assumption|]. unfold without in *. cbn.
      now rewrite H4.
  - rewrite !MastermindsFacts.append_assoc. cbn.
    now rewrite !MastermindsFacts.append_assoc.
Qed.

Lemma refsLoop_wellFormed strip refs : forall rest acc,
  Forall wellFormedRef refs ->
  refsLoop strip (map lsRemoteLine refs ++ rest)%list
           acc
  = refsLoop strip rest (acc ++ map (fun r => strip (snd r)) refs)%list.
Proof.
  induction refs as [|[sha ref] refs IH]; intros rest acc H.
  - cbn. now rewrite app_nil_r.
  - inversion H as [|? ? (H1 & H2 & H3 & H4) H']; subst.
    cbn [map app fst snd refsLoop].
    change (lsRemoteLine (sha, ref)) with (sha ++ String tab ref).
    assert (NE : String.eqb (sha ++ String tab ref) "" = false)
      by (destruct sha; reflexivity).
    rewrite NE, (Split_app_sep sha ref tab), Split_without by assumption.
    cbn [nth_error]. rewrite IH by assumption.
    now rewrite <- app_assoc.
Qed.

(** ** More on the pure functions *)

Section MorePure.
Context {L : Semver}.

Lemma better_fold_In (l : list Version) : forall acc m,
  fold_left better l acc = Some m -> acc = Some m \/ In m l.
Proof.
  induction l as [|v l IH]; intros acc m H; cbn in *; [auto|].
  apply IH in H as [H|H]; [|auto].
  unfold better in H. destruct acc as [x|].
  - destruct (GreaterThan v x); [injection H as <-|]; auto.
  - injection H as <-. auto.
Qed.

Lemma isValidVersion_parses x :
  isValidVersion x = true -> NewVersion (strings.TrimPrefix x "v") <> None.
Proof.
  unfold isValidVersion.
  destruct (negb _); [discriminate|].
  destruct (NewVersion (strings.TrimPrefix x "v")); [discriminate|].
  discriminate.
Qed.

Lemma TrimPrefix_without_prefix x p :
  strings.HasPrefix x p = false -> strings.TrimPrefix x p = x.
Proof.
  unfold strings.HasPrefix, strings.TrimPrefix.
  now destruct (strings.CutPrefix x p).
Qed.

Lemma parseEach_all versions :
  (forall x, In x versions -> NewVersion x <> None) ->
  List.length (parseEach versions) = List.length versions.
Proof.
  induction versions as [|x versions IH]; intros H; [reflexivity|].
  cbn. destruct (NewVersion x) eqn:E.
  - cbn. f_equal. apply IH. intros y Hy. apply H. now right.
  - exfalso. apply (H x); [now left|exact E].
Qed.

Lemma parseEach_none versions :
  parseEach versions = [] ->
  forall x, In x versions -> NewVersion x = None.
Proof.
  induction versions as [|y versions IH]; intros H x Hx; [destruct Hx|].
  cbn in H. destruct (NewVersion y) eqn:E; [discriminate|].
  destruct Hx as [<-|Hx]; auto.
Qed.

End MorePure.

(** ** More on runs *)

Lemma bind_Val_inv {A B} (m : M A) (k : A -> M B) t b :
  bind m k = (t, Val b) ->
  exists t1 a t2, m = (t1, Val a) /\ k a = (t2, Val b) /\ t = (t1 ++ t2)%list.
Proof.
  destruct m as [t1 [a|e|msg]]; cbn; try discriminate.
  destruct (k a) as [t2 r] eqn:K. intros [= <- ->].
  exists t1, a, t2. auto.
Qed.

Lemma fst_bind {A B} (m : M A) (k : A -> M B) :
  fst (bind m k)
  = (fst m ++ match snd m with
              | Val a => fst (k a)
              | _ => []
              end)%list.
Proof.
  destruct m as [t1 [a|e|msg]]; cbn; try now rewrite app_nil_r.
  now destruct (k a).
Qed.

(** [selectVersion] prints and fetches the branches, nothing else, and
    fetches them only for a spec, neither empty nor "latest", that no
    version satisfies. *)
Lemma selectVersion_events {L : Semver} (w : World) versionSpec
    validVersions (e : event) :
  In e (fst (selectVersion w versionSpec validVersions)) ->
  (exists line, e = Stdout line)
  \/ (e = FetchBranches /\ versionSpec <> "" /\ versionSpec <> "latest"
      /\ maxSatisfying validVersions versionSpec = "").
Proof.
  unfold selectVersion.
  destruct (String.eqb_spec versionSpec "") as [E1|E1];
    destruct (String.eqb_spec versionSpec "latest") as [E2|E2]; cbn [orb];
    try (destruct validVersions; cbn; [tauto|];
         intros [<-|[]]; left; eauto).
  destruct (String.eqb_spec (maxSatisfying validVersions versionSpec) "")
    as [E|E]; [|cbn; tauto].
  unfold warning, emit, call, bind, fail, ret.
  destruct (fetchBranches w) as [branches|err|msg];
    try (destruct (negb (contains branches versionSpec)));
    cbn; intros [<-|[<-|[]]]; eauto 10.
Qed.

(** The part of [InstallGop] that announces the checkout, when the
    output file is not set. *)
Lemma InstallGop_without_output {L : Semver} {S : GoSort} (w : World) :
  Getenv w "GITHUB_OUTPUT" = "" ->
  forall e, In e (fst (InstallGop w)) ->
    (exists line, e = Stdout line) \/ e = FetchTags \/ e = FetchBranches.
Proof.
  intros G e. unfold InstallGop. rewrite fst_bind.
  intros H. apply in_app_or in H as [H|H].
  { left. eexists. eapply In_resolve_trace; [|exact H].
    apply surjective_pairing. }
  destruct (snd (resolveVersionInput w)) as [spec|err|msg]; try destruct H.
  rewrite fst_bind in H. cbn [call fst snd] in H.
  apply in_app_or in H as [[<-|[]]|H]; [auto|].
  destruct (fetchTags w) as [tags|err|msg]; try destruct H.
  rewrite fst_bind in H. apply in_app_or in H as [H|H].
  { apply selectVersion_events in H as [H|(-> & _)]; auto. }
  destruct (snd (selectVersion w spec _)) as [version|err|msg];
    try destruct H.
  rewrite fst_bind in H. apply in_app_or in H as [H|H].
  - left. unfold setOutput, info, warning, emit, panic, bind in H.
    rewrite G in H. cbn in H.
    destruct (negb (String.eqb version "")); cbn in H;
      destruct H as [<-|[]]; eauto.
  - unfold setOutput, info, warning, emit, panic, bind in H.
    rewrite G in H. cbn in H.
    destruct (negb (String.eqb version "")); cbn in H; destruct H.
Qed.

Lemma checkVersion_events {L : Semver} (w : World) version (e : event) :
  In e (fst (checkVersion w version)) ->
  (exists line, e = Stdout line) \/ e = GopVersion.
Proof.
  unfold checkVersion, info, call, emit, fail, bind.
  destruct (gopVersionFunc w) as [gv|err|msg];
    [|cbn; intros [<-|[<-|[]]]; eauto ..].
  destruct (NewVersion version) as [ev|];
    [|cbn; intros [<-|[<-|[]]]; eauto].
  destruct (NewVersion gv) as [av|]; [|cbn; intros [<-|[<-|[]]]; eauto].
  destruct (negb (Equal ev av)); cbn;
    [intros [<-|[<-|[]]]|intros [<-|[<-|[<-|[]]]]]; eauto.
Qed.


(** The part of [InstallGop] that announces the checkout. *)
Lemma checkout_block (w : World) (versionSpec version : string) :
  (if negb (String.eqb version "") then
     info ("Selected version " ++ version ++ " by spec " ++ versionSpec) ;;
     setOutput w "gop-version-verified" "true" ;;
     ret ("v" ++ version)
   else
     warning ("Unable to find a version that satisfies the version spec '"
              ++ versionSpec ++ "', trying branches...") ;;
     setOutput w "gop-version-verified" "false" ;;
     ret versionSpec)
  = if negb (String.eqb (Getenv w "GITHUB_OUTPUT") "") then
      ([Stdout (fst (fst (checkoutOf versionSpec version)));
        SetOutput "gop-version-verified"
                  (snd (fst (checkoutOf versionSpec version)))],
       Val (snd (checkoutOf versionSpec version)))
    else
      ([Stdout (fst (fst (checkoutOf versionSpec version)))],
       Panic ("GITHUB_OUTPUT is not set, cannot set output "
              ++ "gop-version-verified" ++ "="
              ++ snd (fst (checkoutOf versionSpec version)))).
Proof.
  unfold checkoutOf, setOutput, info, warning, emit, panic.
  destruct (negb (String.eqb (Getenv w "GITHUB_OUTPUT") ""));
    destruct (negb (String.eqb version "")); reflexivity.
Qed.

Lemma snd_bind {A B} (m : M A) (k : A -> M B) :
  snd (bind m k)
  = match snd m with
    | Val a => snd (k a)
    | Err e => Err e
    | Panic msg => Panic msg
    end.
Proof.
  unfold bind. destruct m as [t [a|e|msg]]; cbn [snd]; try reflexivity.
  now destruct (k a).
Qed.

(** ** The version that is selected *)

Section Selection.
Context {L : Semver} {HL : SemverLaws L} {S : GoSort} {HS : GoSortContract S}.

Lemma sortVersions_canonical (versions : list string) :
  (forall x, In x versions -> NewVersion x <> None) ->
  forall y, In y (sortVersions versions) ->
    exists raw v,
      In raw versions /\ NewVersion raw = Some v /\ y = Version_String v.
Proof.
  intros H y Hy.
  destruct (sortVersions_sorted versions) as (Hlen & _ & sorted & P & E & _).
  rewrite parseVersions_parseEach, (parseEach_all versions H) in E.
  rewrite <- Hlen, firstn_all in E. rewrite E in Hy.
  apply in_map_iff in Hy as (v & <- & Hv).
  apply (Permutation_in _ P) in Hv.
  rewrite parseVersions_parseEach in Hv.
  apply parseEach_In in Hv as (raw & Hraw & Hp).
  exists raw, v. auto.
Qed.

Lemma maxSatisfying_In_canonical (versions : list string) (spec : string) :
  (forall x, In x versions ->
     exists v, parsed v /\ x = Version_String v) ->
  maxSatisfying versions spec <> "" ->
  In (maxSatisfying versions spec) versions.
Proof.
  intros H. unfold maxSatisfying.
  destruct (exactMatch versions spec) as [x|] eqn:E.
  { intros _. now apply exactMatch_Some in E as [_ E]. }
  destruct (NewConstraint spec) as [c|]; [|intros N; now destruct N].
  rewrite maxStep_fold.
  destruct (fold_left better (filter (Check c) (parseEach versions)) None)
    as [m|] eqn:F; [|intros N; now destruct N].
  intros _.
  apply better_fold_In in F as [F|F]; [discriminate F|].
  apply filter_In in F as [F _].
  apply parseEach_In in F as (raw & Hraw & Hm).
  destruct (H raw Hraw) as (v & Hv & ->).
  destruct (String_parses_back v Hv) as (v' & Hv' & _ & Es).
  rewrite Hv' in Hm. injection Hm as <-. now rewrite Es.
Qed.

End Selection.

(** * Part III: the properties of the specification *)

(** ** The constraint matcher *)

(** C1. When the spec, without one leading "v", is an element of
    [versions], [maxSatisfying] returns that element from its first
    loop, whatever the constraint parser and the constraint semantics
    of the library are. *)
Theorem maxSatisfying_exact_match {L : Semver}
    (versions : list string) (spec : string) :
  In (strings.TrimPrefix spec "v") versions ->
  exactMatch versions spec = Some (strings.TrimPrefix spec "v")
  /\ maxSatisfying versions spec = strings.TrimPrefix spec "v".
Proof.
  intros H. unfold maxSatisfying.
  rewrite (exactMatch_In versions spec H). auto.
Qed.

Lemma maxSatisfying_exact_match_witness :
  In (strings.TrimPrefix "1.0.0-alpha" "v") ["1.0.0-alpha"]
  /\ maxSatisfying (L:=Masterminds_Semver) ["1.0.0-alpha"] "1.0.0-alpha"
     = "1.0.0-alpha".
Proof.
  assert (H : In (strings.TrimPrefix "1.0.0-alpha" "v") ["1.0.0-alpha"])
    by (simpl; auto).
  split; [exact H|].
  exact (proj2 (maxSatisfying_exact_match (L:=Masterminds_Semver)
                  ["1.0.0-alpha"] "1.0.0-alpha" H)).
Defined.

(** C2. Without an exact match: no result when the spec is not a
    constraint; otherwise the candidates that parse are checked against
    the constraint, and the result is the canonical string of a
    satisfying candidate that no satisfying candidate exceeds, or no
    result when none satisfies. *)
Theorem maxSatisfying_constraint {L : Semver} {HL : SemverLaws L}
    (versions : list string) (spec : string) :
  ~ In (strings.TrimPrefix spec "v") versions ->
  match NewConstraint spec with
  | None => maxSatisfying versions spec = ""
  | Some c =>
      let satisfying := filter (Check c) (parseEach versions) in
      match satisfying with
      | [] => maxSatisfying versions spec = ""
      | _ :: _ =>
          exists m,
            In m satisfying
            /\ (forall w, In w satisfying -> (Compare w m <= 0)%Z)
            /\ maxSatisfying versions spec = Version_String m
      end
  end.
Proof.
  intros H. unfold maxSatisfying. rewrite (exactMatch_None versions spec H).
  destruct (NewConstraint spec) as [c|]; [|reflexivity].
  rewrite maxStep_fold. cbv zeta.
  pose proof (better_fold_spec (filter (Check c) (parseEach versions))
                (filter_Forall _ _ _ (parseEach_parsed versions))) as S.
  destruct (filter (Check c) (parseEach versions)) as [|x sat] eqn:E.
  - reflexivity.
  - destruct (fold_left better (x :: sat) None) as [m|]; [|discriminate].
    destruct S as [I A]. exists m. auto.
Qed.

Lemma maxSatisfying_constraint_witness :
  (exists m : Masterminds.Version,
      In m (filter (Masterminds.Check
                      [[Masterminds.mkConstraint
                          (Masterminds.mkVersion 1 0 0 "" "" "1.0.0")
                          ">=" false false false;
                        Masterminds.mkConstraint
                          (Masterminds.mkVersion 2 0 0 "" "" "2.0.0")
                          "<" false false false]])
                   (parseEach (L:=Masterminds_Semver)
                      ["1.0.0"; "1.1.0"; "2.0.0"]))
      /\ maxSatisfying (L:=Masterminds_Semver)
           ["1.0.0"; "1.1.0"; "2.0.0"] ">=1.0.0 <2.0.0"
         = Masterminds.Version_String m)
  /\ maxSatisfying (L:=Masterminds_Semver)
       ["1.0.0"; "1.1.0"; "2.0.0"] ">=1.0.0 <2.0.0" = "1.1.0"
  /\ maxSatisfying (L:=Masterminds_Semver)
       ["1.0.0"; "1.1.0"; "2.0.0"] "3.0.0" = ""
  /\ maxSatisfying (L:=Masterminds_Semver)
       ["1.0.0"; "1.1.0"; "2.0.0"] "invalid-spec" = "".
Proof.
  assert (N : forall spec,
             existsb (String.eqb (strings.TrimPrefix spec "v"))
                     ["1.0.0"; "1.1.0"; "2.0.0"] = false ->
             ~ In (strings.TrimPrefix spec "v") ["1.0.0"; "1.1.0"; "2.0.0"]).
  { intros spec E H.
    assert (T : existsb (String.eqb (strings.TrimPrefix spec "v"))
                  ["1.0.0"; "1.1.0"; "2.0.0"] = true).
    { apply existsb_exists. eexists. split; [exact H|apply String.eqb_refl]. }
    congruence. }
  split; [|split; [|split]].
  - pose proof (maxSatisfying_constraint (L:=Masterminds_Semver)
                  ["1.0.0"; "1.1.0"; "2.0.0"] ">=1.0.0 <2.0.0"
                  (N ">=1.0.0 <2.0.0" eq_refl)) as T.
    destruct T as (m & I & _ & E). exists m. split; [exact I|exact E].
  - reflexivity.
  - exact (maxSatisfying_constraint (L:=Masterminds_Semver)
             ["1.0.0"; "1.1.0"; "2.0.0"] "3.0.0" (N "3.0.0" eq_refl)).
  - exact (maxSatisfying_constraint (L:=Masterminds_Semver)
             ["1.0.0"; "1.1.0"; "2.0.0"] "invalid-spec"
             (N "invalid-spec" eq_refl)).
Defined.

(** C9, as stated, fails: two candidates that differ only in build
    metadata have the same precedence, and the first of them wins. *)
Lemma maxSatisfying_order_counterexample :
  Permutation ["1.0.0+a"; "1.0.0+b"] ["1.0.0+b"; "1.0.0+a"]
  /\ isValidVersion (L:=Masterminds_Semver) "1.0.0+a" = true
  /\ isValidVersion (L:=Masterminds_Semver) "1.0.0+b" = true
  /\ maxSatisfying (L:=Masterminds_Semver) ["1.0.0+a"; "1.0.0+b"] ">=1.0.0"
     = "1.0.0+a"
  /\ maxSatisfying (L:=Masterminds_Semver) ["1.0.0+b"; "1.0.0+a"] ">=1.0.0"
     = "1.0.0+b".
Proof.
  split; [apply perm_swap|]. repeat split; reflexivity.
Qed.

(** C9, amended. When candidates of equal precedence have the same
    canonical string (no two differ only in build metadata), the result
    of [maxSatisfying] does not depend on the order of the candidates. *)
Theorem maxSatisfying_Permutation {L : Semver} {HL : SemverLaws L}
    (versions versions' : list string) (spec : string) :
  Permutation versions versions' ->
  (forall a b, In a (parseEach versions) -> In b (parseEach versions) ->
               Compare a b = 0%Z -> Version_String a = Version_String b) ->
  maxSatisfying versions spec = maxSatisfying versions' spec.
Proof.
  intros P T. unfold maxSatisfying.
  rewrite (exactMatch_Permutation versions versions' spec P).
  destruct (exactMatch versions' spec); [reflexivity|].
  destruct (NewConstraint spec) as [c|]; [|reflexivity].
  rewrite !maxStep_fold.
  pose proof (better_fold_Permutation
                (filter (Check c) (parseEach versions))
                (filter (Check c) (parseEach versions'))
                (filter_Forall _ _ _ (parseEach_parsed versions))) as B.
  assert (PF : Permutation (filter (Check c) (parseEach versions))
                           (filter (Check c) (parseEach versions'))).
  { apply filter_Permutation, parseEach_Permutation, P. }
  specialize (B PF).
  destruct (fold_left better (filter (Check c) (parseEach versions)) None)
    as [m|],
    (fold_left better (filter (Check c) (parseEach versions')) None)
    as [m'|]; try contradiction; [|reflexivity].
  destruct B as (E & I & I'). apply filter_In in I as [I _], I' as [I' _].
  now apply T.
Qed.

Lemma maxSatisfying_Permutation_witness :
  maxSatisfying (L:=Masterminds_Semver) ["1.0.0"; "2.0.0"; "1.1.0"] "<2"
  = maxSatisfying (L:=Masterminds_Semver) ["1.1.0"; "1.0.0"; "2.0.0"] "<2".
Proof.
  apply (maxSatisfying_Permutation (L:=Masterminds_Semver)
           ["1.0.0"; "2.0.0"; "1.1.0"] ["1.1.0"; "1.0.0"; "2.0.0"] "<2").
  - apply Permutation_sym, (Permutation_cons_app ["1.0.0"; "2.0.0"] []).
    reflexivity.
  - intros a b Ha Hb.
    simpl in Ha, Hb.
    destruct Ha as [<-|[<-|[<-|[]]]], Hb as [<-|[<-|[<-|[]]]];
      vm_compute; intros E; try reflexivity; discriminate E.
Defined.

(** C10, as stated, fails: a list that holds "v1.2.3" returns from the
    exact-match step for the spec "1.2.3" when it also holds "1.2.3". *)
Lemma exactMatch_v_candidate_counterexample :
  In "v1.2.3" ["v1.2.3"; "1.2.3"]
  /\ exactMatch ["v1.2.3"; "1.2.3"] "1.2.3" = Some "1.2.3"
  /\ exactMatch ["v1.2.3"; "1.2.3"] "v1.2.3" = Some "1.2.3".
Proof. repeat split. simpl. auto. Qed.

(** C10, amended. The exact-match step strips the "v" of the spec only
    and compares the candidates as they are: with "1.2.3" in the list
    the spec "v1.2.3" returns "1.2.3"; the element "v1.2.3" is never
    what the step returns for the specs "1.2.3" and "v1.2.3", and the
    step returns nothing for them unless "1.2.3" is in the list. *)
Theorem exactMatch_strips_spec_only {L : Semver} (versions : list string) :
  (In "1.2.3" versions ->
   exactMatch versions "v1.2.3" = Some "1.2.3"
   /\ maxSatisfying versions "v1.2.3" = "1.2.3")
  /\ (forall spec, spec = "1.2.3" \/ spec = "v1.2.3" ->
        exactMatch versions spec <> Some "v1.2.3"
        /\ (~ In "1.2.3" versions -> exactMatch versions spec = None))
  /\ (forall spec v, exactMatch versions spec = Some v ->
        v = strings.TrimPrefix spec "v" /\ In v versions).
Proof.
  split; [|split].
  - intros H.
    assert (E : exactMatch versions "v1.2.3" = Some "1.2.3")
      by (apply (exactMatch_In versions "v1.2.3"); exact H).
    split; [exact E|]. unfold maxSatisfying. now rewrite E.
  - intros spec Hs.
    assert (E : strings.TrimPrefix spec "v" = "1.2.3")
      by (destruct Hs; subst; reflexivity).
    split.
    + intros H. apply exactMatch_Some in H as [H _]. rewrite E in H.
      discriminate H.
    + intros H. apply exactMatch_None. now rewrite E.
  - intros spec v. apply exactMatch_Some.
Qed.

Lemma exactMatch_strips_spec_only_witness :
  (exactMatch ["1.0.0"; "1.2.3"] "v1.2.3" = Some "1.2.3"
   /\ maxSatisfying (L:=Masterminds_Semver) ["1.0.0"; "1.2.3"] "v1.2.3"
      = "1.2.3")
  /\ exactMatch ["v1.2.3"] "1.2.3" = None
  /\ exactMatch ["v1.2.3"] "v1.2.3" = None.
Proof.
  split; [|split].
  - apply (proj1 (exactMatch_strips_spec_only (L:=Masterminds_Semver)
                    ["1.0.0"; "1.2.3"])).
    simpl. auto.
  - apply (proj1 (proj2 (exactMatch_strips_spec_only (L:=Masterminds_Semver)
                           ["v1.2.3"])) "1.2.3"); [now left|].
    simpl. intros [H|[]]. discriminate H.
  - apply (proj1 (proj2 (exactMatch_strips_spec_only (L:=Masterminds_Semver)
                           ["v1.2.3"])) "v1.2.3"); [now right|].
    simpl. intros [H|[]]. discriminate H.
Defined.

(** ** The sorter *)

(** C3. After [sortVersions] the list has its length; its first N
    entries, N the number of entries that parse, are the canonical
    strings (major.minor.patch[-prerelease][+build], no leading "v") of
    the versions that parsed, in descending precedence, each parsing
    back to a version equal to the one read from some input entry; the
    entries after the first N are the original ones. *)
Theorem sortVersions_descending {S : GoSort} {HS : GoSortContract S}
    (versions : list string) :
  let vs := parseVersions (L:=Masterminds_Semver) versions in
  let n := List.length vs in
  let out := sortVersions (L:=Masterminds_Semver) versions in
  List.length out = List.length versions
  /\ skipn n out = skipn n versions
  /\ exists sorted : list Masterminds.Version,
       Permutation sorted vs
       /\ firstn n out = map Masterminds.Version_String sorted
       /\ StronglySorted
            (fun a b => (Masterminds.Compare b a <= 0)%Z) sorted
       /\ Forall
            (fun v =>
               (exists raw, In raw versions
                            /\ Masterminds.NewVersion raw = Some v)
               /\ (exists v',
                      Masterminds.NewVersion (Masterminds.Version_String v)
                      = Some v'
                      /\ Masterminds.Compare v' v = 0%Z)
               /\ Masterminds.Version_String v
                  = Masterminds.formatUint (Masterminds.major v) ++ "."
                    ++ Masterminds.formatUint (Masterminds.minor v) ++ "."
                    ++ Masterminds.formatUint (Masterminds.patch v)
                    ++ Masterminds.suffixOf (Masterminds.pre v)
                         (Masterminds.metadata v)
               /\ strings.HasPrefix (Masterminds.Version_String v) "v"
                  = false)
            sorted.
Proof.
  intros vs n out.
  destruct (sortVersions_sorted (L:=Masterminds_Semver) versions)
    as (Hlen & Hskip & sorted & P & Hfirst & Hsorted).
  split; [exact Hlen|]. split; [exact Hskip|].
  exists sorted. split; [exact P|]. split; [exact Hfirst|].
  split; [exact Hsorted|].
  apply Forall_forall. intros v Hv.
  assert (Hin : In v (parseEach (L:=Masterminds_Semver) versions)).
  { rewrite <- parseVersions_parseEach. eapply Permutation_in; eauto. }
  destruct (proj1 (parseEach_In (L:=Masterminds_Semver) versions v) Hin)
    as (raw & Hraw & Hparse).
  assert (Hp : parsed (L:=Masterminds_Semver) v) by now exists raw.
  split; [now exists raw|]. split; [|split].
  - destruct (@String_parses_back Masterminds_Semver Masterminds_laws v Hp)
      as (v' & E1 & E2 & _).
    now exists v'.
  - reflexivity.
  - apply MastermindsFacts.Version_String_no_v.
Qed.

Lemma sortVersions_descending_witness :
  sortVersions (L:=Masterminds_Semver) (S:=insertionSort)
    ["1.0.0"; "invalid"; "2.0.0"] = ["2.0.0"; "1.0.0"; "2.0.0"]
  /\ exists sorted : list Masterminds.Version,
       firstn 2 (sortVersions (L:=Masterminds_Semver) (S:=insertionSort)
                   ["1.0.0"; "invalid"; "2.0.0"])
       = map Masterminds.Version_String sorted
       /\ StronglySorted
            (fun a b => (Masterminds.Compare b a <= 0)%Z) sorted.
Proof.
  split; [reflexivity|].
  destruct (sortVersions_descending (S:=insertionSort)
              (HS:=insertionSort_contract) ["1.0.0"; "invalid"; "2.0.0"])
    as (_ & _ & sorted & _ & F & St & _).
  exists sorted. split; [exact F|exact St].
Defined.

(** ** The validator *)

(** C6. [isValidVersion] looks for the three components in the text
    before the first "-" only, so build metadata that holds a dot is
    counted as components: "1.0.0+build.1", a semantic version with
    three numeric components, is rejected whatever the library says,
    and "1.0+a.b", with two, is accepted.  The four examples of the
    claim hold. *)
Theorem isValidVersion_build_metadata_dots :
  (forall L : Semver, isValidVersion (L:=L) "1.0.0+build.1" = false)
  /\ isValidVersion_spec "1.0.0+build.1" = true
  /\ isValidVersion (L:=Masterminds_Semver) "1.0+a.b" = true
  /\ isValidVersion_spec "1.0+a.b" = false
  /\ isValidVersion (L:=Masterminds_Semver) "1.0.0" = true
  /\ isValidVersion (L:=Masterminds_Semver) "1.0" = false
  /\ isValidVersion (L:=Masterminds_Semver) "v1.0.0-beta.1" = true
  /\ isValidVersion (L:=Masterminds_Semver) "latest" = false
  /\ isValidVersion_spec "1.0.0" = true
  /\ isValidVersion_spec "1.0" = false
  /\ isValidVersion_spec "v1.0.0-beta.1" = true
  /\ isValidVersion_spec "latest" = false.
Proof.
  split; [intros L; reflexivity|]. repeat split; reflexivity.
Qed.

(** ** The post-install verifier *)

(** C7, as stated, fails: "1.0" is not a version by the grammar of
    section 4.1 ([isValidVersion] rejects it), yet [checkVersion]
    accepts it as the expected version when "1.0.0" is installed. *)
Lemma checkVersion_lenient_counterexample :
  isValidVersion (L:=Masterminds_Semver) "1.0" = false
  /\ gopVersionFunc (worldReporting (Val "1.0.0")) = Val "1.0.0"
  /\ snd (checkVersion (L:=Masterminds_Semver)
            (worldReporting (Val "1.0.0")) "1.0") = Val tt.
Proof. repeat split; reflexivity. Qed.

(** C7, amended.  [checkVersion] succeeds exactly when the query gives
    a string, [semver.NewVersion] (the lenient parser, which also takes
    "1.0" or "v1") reads both the expected and the reported string, and
    the two versions have the same numbers and the same pre-release;
    build metadata plays no part.  Given the reported string it fails
    with an error in all other cases, and an error of the query is
    returned as it is. *)
Theorem checkVersion_succeeds_iff (w : World) (expectedSpec : string) :
  (snd (checkVersion (L:=Masterminds_Semver) w expectedSpec) = Val tt
   <-> exists installed e a,
         gopVersionFunc w = Val installed
         /\ Masterminds.NewVersion expectedSpec = Some e
         /\ Masterminds.NewVersion installed = Some a
         /\ Masterminds.major e = Masterminds.major a
         /\ Masterminds.minor e = Masterminds.minor a
         /\ Masterminds.patch e = Masterminds.patch a
         /\ Masterminds.pre e = Masterminds.pre a)
  /\ (forall installed, gopVersionFunc w = Val installed ->
        ((exists err,
             snd (checkVersion (L:=Masterminds_Semver) w expectedSpec)
             = Err err)
         <-> Masterminds.NewVersion expectedSpec = None
             \/ Masterminds.NewVersion installed = None
             \/ exists e a,
                  Masterminds.NewVersion expectedSpec = Some e
                  /\ Masterminds.NewVersion installed = Some a
                  /\ ~ (Masterminds.major e = Masterminds.major a
                        /\ Masterminds.minor e = Masterminds.minor a
                        /\ Masterminds.patch e = Masterminds.patch a
                        /\ Masterminds.pre e = Masterminds.pre a)))
  /\ (forall err, gopVersionFunc w = Err err ->
        snd (checkVersion (L:=Masterminds_Semver) w expectedSpec) = Err err).
Proof.
  rewrite (checkVersion_result w expectedSpec).
  cbn [NewVersion Compare Version_String Masterminds_Semver].
  split; [|split].
  - split.
    + destruct (gopVersionFunc w) as [installed|err|msg]; try discriminate.
      destruct (Masterminds.NewVersion expectedSpec) as [e|] eqn:E;
        [|discriminate].
      destruct (Masterminds.NewVersion installed) as [a|] eqn:A;
        [|discriminate].
      destruct (Z.eqb_spec (Masterminds.Compare e a) 0) as [Z|Z];
        [|discriminate].
      intros _. exists installed, e, a.
      split; [reflexivity|]. split; [reflexivity|]. split; [exact A|].
      apply MastermindsFacts.Compare_eq_wf; eauto using
        MastermindsFacts.NewVersion_wf.
    + intros (installed & e & a & -> & E & A & F). rewrite E, A.
      apply (MastermindsFacts.Compare_eq_wf e a) in F;
        eauto using MastermindsFacts.NewVersion_wf.
      now rewrite F.
  - intros installed ->.
    destruct (Masterminds.NewVersion expectedSpec) as [e|] eqn:E;
      [|split; [auto|eauto]].
    destruct (Masterminds.NewVersion installed) as [a|] eqn:A;
      [|split; [auto|eauto]].
    pose proof (MastermindsFacts.Compare_eq_wf e a
                  (MastermindsFacts.NewVersion_wf _ _ E)
                  (MastermindsFacts.NewVersion_wf _ _ A)) as C.
    destruct (Z.eqb_spec (Masterminds.Compare e a) 0) as [Z|Z].
    + split; [intros [err H]; discriminate H|].
      intros [H|[H|(e' & a' & He & Ha & N)]]; try discriminate.
      injection He as <-. injection Ha as <-. exfalso. apply N, C, Z.
    + split; [|eauto]. intros _. right. right. exists e, a.
      split; [reflexivity|]. split; [reflexivity|].
      intros F. apply Z, C, F.
  - intros err ->. reflexivity.
Qed.

Lemma checkVersion_succeeds_iff_witness :
  snd (checkVersion (L:=Masterminds_Semver)
         (worldReporting (Val "1.0.0")) "1.0.0") = Val tt
  /\ (exists err,
         snd (checkVersion (L:=Masterminds_Semver)
                (worldReporting (Val "1.1.0")) "1.0.0") = Err err)
  /\ (exists err,
         snd (checkVersion (L:=Masterminds_Semver)
                (worldReporting (Val "1.0.0")) "invalid") = Err err)
  /\ snd (checkVersion (L:=Masterminds_Semver)
            (worldReporting (Err (Errorf "failed to get gop version")))
            "1.0.0")
     = Err (Errorf "failed to get gop version").
Proof.
  split; [|split; [|split]].
  - apply (proj1 (checkVersion_succeeds_iff
                    (worldReporting (Val "1.0.0")) "1.0.0")).
    eexists _, _, _. repeat split; reflexivity.
  - apply (proj1 (proj2 (checkVersion_succeeds_iff
                           (worldReporting (Val "1.1.0")) "1.0.0"))
             "1.1.0" eq_refl).
    right. right. eexists _, _. split; [reflexivity|]. split; [reflexivity|].
    intros (_ & H & _). discriminate H.
  - apply (proj1 (proj2 (checkVersion_succeeds_iff
                           (worldReporting (Val "1.0.0")) "invalid"))
             "1.0.0" eq_refl).
    left. reflexivity.
  - apply (proj2 (proj2 (checkVersion_succeeds_iff
                           (worldReporting
                              (Err (Errorf "failed to get gop version")))
                           "1.0.0"))).
    reflexivity.
Defined.

(** ** Input resolution *)



(** ** The orchestrator *)

(** C4.  In a run that read its spec and the tags and can write its
    outputs: when the spec is neither empty nor "latest" and
    [maxSatisfying] finds nothing, a spec that is among the branch
    names is the reference cloned, as it is, the output
    "gop-version-verified" is "false" and [checkVersion] does not run
    (its first line is never printed), and a spec that is not among
    them ends the run with an error before any clone; when a version
    is selected, from an empty or "latest" spec or by [maxSatisfying],
    the reference cloned is "v" followed by the version and the output
    is "true". *)
Theorem InstallGop_checkout {L : Semver} {HL : SemverLaws L}
    {S : GoSort} {HS : GoSortContract S}
    (w : World) (versionSpec : string) (tags : list string)
    (t0 : list event) :
  resolveVersionInput w = (t0, Val versionSpec) ->
  fetchTags w = Val tags ->
  Getenv w "GITHUB_OUTPUT" <> "" ->
  let validVersions := sortVersions (filter isValidVersion tags) in
  let trace := fst (InstallGop w) in
  (versionSpec <> "" -> versionSpec <> "latest" ->
   maxSatisfying validVersions versionSpec = "" ->
   forall branches, fetchBranches w = Val branches ->
     (contains branches versionSpec = true ->
      In (CloneBranchOrTag versionSpec) trace
      /\ (forall ref, In (CloneBranchOrTag ref) trace -> ref = versionSpec)
      /\ In (SetOutput "gop-version-verified" "false") trace
      /\ (forall v, In (SetOutput "gop-version-verified" v) trace ->
                    v = "false")
      /\ (forall line, In (Stdout line) trace ->
                       strings.HasPrefix line "Testing gop " = false))
     /\ (contains branches versionSpec = false ->
         InstallGop w
         = ((t0 ++ [FetchTags;
                    Stdout ("::warning::No gop-version found that satisfies '"
                            ++ versionSpec ++ "', trying branches...");
                    FetchBranches])%list,
            Err (Errorf ("no gop-version found that satisfies '"
                         ++ versionSpec ++ "' in branches or tags")))))
  /\ (forall version,
        ((versionSpec = "" \/ versionSpec = "latest")
         /\ hd_error validVersions = Some version)
        \/ (versionSpec <> "" /\ versionSpec <> "latest"
            /\ maxSatisfying validVersions versionSpec = version
            /\ version <> "") ->
        In (CloneBranchOrTag ("v" ++ version)) trace
        /\ (forall ref, In (CloneBranchOrTag ref) trace ->
                        ref = "v" ++ version)
        /\ In (SetOutput "gop-version-verified" "true") trace
        /\ (forall v, In (SetOutput "gop-version-verified" v) trace ->
                      v = "true")).
Proof.
  intros R T G validVersions trace. split.
  - intros N1 N2 M branches B. split.
    + intros C.
      assert (Sel : selectVersion w versionSpec validVersions
                    = ([Stdout ("::warning::No gop-version found that satisfies '"
                                ++ versionSpec ++ "', trying branches...");
                        FetchBranches], Val "")).
      { rewrite selectVersion_other by assumption. now rewrite M, B, C. }
      destruct (InstallGop_after_selection w versionSpec "" tags t0 _ R T Sel G)
        as (tail & E & F).
      subst trace. rewrite E. cbn [checkoutOf String.eqb negb fst snd].
      rewrite Forall_forall in F.
      split; [|split; [|split; [|split]]].
      * apply in_or_app. right. cbn. auto 10.
      * intros ref H. apply In_run_trace in H
          as [H|[H|[H|[H|[H|[H|H]]]]]]; try discriminate H.
        -- apply (In_resolve_trace w _ _ _ R) in H. discriminate H.
        -- destruct H as [H|[H|[]]]; discriminate H.
        -- now injection H.
        -- destruct (F _ H).
      * apply in_or_app. right. cbn. auto 10.
      * intros v H. apply In_run_trace in H
          as [H|[H|[H|[H|[H|[H|H]]]]]]; try discriminate H.
        -- apply (In_resolve_trace w _ _ _ R) in H. discriminate H.
        -- destruct H as [H|[H|[]]]; discriminate H.
        -- now injection H.
        -- specialize (F _ H). discriminate F.
      * intros line H. apply In_run_trace in H
          as [H|[H|[H|[H|[H|[H|H]]]]]]; try discriminate H.
        -- apply (In_resolve_trace w _ _ _ R) in H.
           injection H as H. subst line. reflexivity.
        -- destruct H as [H|[H|[]]]; try discriminate H.
           injection H as H. subst line. reflexivity.
        -- injection H as H. subst line. reflexivity.
        -- specialize (F _ H). now contradiction F.
    + intros C. unfold InstallGop. rewrite R, T. cbn [bind call].
      fold validVersions.
      rewrite selectVersion_other by assumption. rewrite M, B, C.
      cbn. reflexivity.
  - intros version H.
    assert (Sel : exists t1,
               selectVersion w versionSpec validVersions = (t1, Val version)
               /\ (forall e, In e t1 -> exists line, e = Stdout line
                     /\ strings.HasPrefix line "Testing gop " = false)
               /\ version <> "").
    { destruct H as [[E H]|(N1 & N2 & M & V)].
      - destruct validVersions as [|x rest] eqn:EV; [discriminate H|].
        injection H as ->. eexists. split; [now apply selectVersion_latest|].
        split.
        + intros e [<-|[]]. eexists. split; reflexivity.
        + apply (proj2 (sortVersions_valid tags)).
          fold validVersions. rewrite EV. now left.
      - exists []. rewrite selectVersion_other by assumption.
        apply String.eqb_neq in V. rewrite M, V.
        split; [reflexivity|]. split; [intros e []|].
        now apply String.eqb_neq. }
    destruct Sel as (t1 & Sel & St1 & V).
    destruct (InstallGop_after_selection w versionSpec version tags t0 t1
                R T Sel G) as (tail & E & F).
    subst trace. rewrite E. unfold checkoutOf.
    apply String.eqb_neq in V. rewrite V. cbn [negb fst snd].
    rewrite Forall_forall in F.
    split; [|split; [|split]].
    + apply in_or_app. right. cbn. right. apply in_or_app. right.
      cbn. auto 10.
    + intros ref H'. apply In_run_trace in H'
        as [H'|[H'|[H'|[H'|[H'|[H'|H']]]]]]; try discriminate H'.
      * apply (In_resolve_trace w _ _ _ R) in H'. discriminate H'.
      * destruct (St1 _ H') as (line & H'' & _). discriminate H''.
      * now injection H'.
      * destruct (F _ H').
    + apply in_or_app. right. cbn. right. apply in_or_app. right.
      cbn. auto 10.
    + intros v H'. apply In_run_trace in H'
        as [H'|[H'|[H'|[H'|[H'|[H'|H']]]]]]; try discriminate H'.
      * apply (In_resolve_trace w _ _ _ R) in H'. discriminate H'.
      * destruct (St1 _ H') as (line & H'' & _). discriminate H''.
      * now injection H'.
      * specialize (F _ H'). discriminate F.
Qed.

Lemma InstallGop_checkout_witness :
  (In (CloneBranchOrTag "feature-x")
      (fst (InstallGop (L:=Masterminds_Semver) (S:=insertionSort)
              (worldOfRun "feature-x" ["1.0.0"; "2.0.0"; "1.1.0"; "invalid"]
                 ["main"; "feature-x"] "2.0.0")))
   /\ In (SetOutput "gop-version-verified" "false")
         (fst (InstallGop (L:=Masterminds_Semver) (S:=insertionSort)
                 (worldOfRun "feature-x"
                    ["1.0.0"; "2.0.0"; "1.1.0"; "invalid"]
                    ["main"; "feature-x"] "2.0.0")))
   /\ forall line,
        In (Stdout line)
           (fst (InstallGop (L:=Masterminds_Semver) (S:=insertionSort)
                   (worldOfRun "feature-x"
                      ["1.0.0"; "2.0.0"; "1.1.0"; "invalid"]
                      ["main"; "feature-x"] "2.0.0"))) ->
        strings.HasPrefix line "Testing gop " = false)
  /\ (exists msg,
         snd (InstallGop (L:=Masterminds_Semver) (S:=insertionSort)
                (worldOfRun "feature-y"
                   ["1.0.0"; "2.0.0"; "1.1.0"; "invalid"]
                   ["main"; "feature-x"] "2.0.0"))
         = Err (Errorf msg))
  /\ In (CloneBranchOrTag "v1.1.0")
        (fst (InstallGop (L:=Masterminds_Semver) (S:=insertionSort)
                (worldOfRun ">=1.0.0 <2.0.0"
                   ["1.0.0"; "2.0.0"; "1.1.0"; "invalid"]
                   ["main"; "feature-x"] "1.1.0")))
  /\ In (SetOutput "gop-version-verified" "true")
        (fst (InstallGop (L:=Masterminds_Semver) (S:=insertionSort)
                (worldOfRun ">=1.0.0 <2.0.0"
                   ["1.0.0"; "2.0.0"; "1.1.0"; "invalid"]
                   ["main"; "feature-x"] "1.1.0"))).
Proof.
  split; [|split; [|split]].
  - pose proof (InstallGop_checkout (L:=Masterminds_Semver)
                  (HL:=Masterminds_laws) (S:=insertionSort)
                  (HS:=insertionSort_contract)
                  (worldOfRun "feature-x"
                     ["1.0.0"; "2.0.0"; "1.1.0"; "invalid"]
                     ["main"; "feature-x"] "2.0.0")
                  "feature-x" ["1.0.0"; "2.0.0"; "1.1.0"; "invalid"] []
                  eq_refl eq_refl ltac:(discriminate)) as T.
    cbv zeta in T. destruct T as [T _].
    assert (N1 : "feature-x" <> "") by discriminate.
    assert (N2 : "feature-x" <> "latest") by discriminate.
    destruct (T N1 N2 eq_refl ["main"; "feature-x"] eq_refl) as [T1 _].
    destruct (T1 eq_refl) as (A & _ & B & _ & C).
    split; [exact A|]. split; [exact B|exact C].
  - pose proof (InstallGop_checkout (L:=Masterminds_Semver)
                  (HL:=Masterminds_laws) (S:=insertionSort)
                  (HS:=insertionSort_contract)
                  (worldOfRun "feature-y"
                     ["1.0.0"; "2.0.0"; "1.1.0"; "invalid"]
                     ["main"; "feature-x"] "2.0.0")
                  "feature-y" ["1.0.0"; "2.0.0"; "1.1.0"; "invalid"] []
                  eq_refl eq_refl ltac:(discriminate)) as T.
    cbv zeta in T. destruct T as [T _].
    assert (N1 : "feature-y" <> "") by discriminate.
    assert (N2 : "feature-y" <> "latest") by discriminate.
    destruct (T N1 N2 eq_refl ["main"; "feature-x"] eq_refl) as [_ T2].
    eexists. rewrite (T2 eq_refl). reflexivity.
  - pose proof (InstallGop_checkout (L:=Masterminds_Semver)
                  (HL:=Masterminds_laws) (S:=insertionSort)
                  (HS:=insertionSort_contract)
                  (worldOfRun ">=1.0.0 <2.0.0"
                     ["1.0.0"; "2.0.0"; "1.1.0"; "invalid"]
                     ["main"; "feature-x"] "1.1.0")
                  ">=1.0.0 <2.0.0" ["1.0.0"; "2.0.0"; "1.1.0"; "invalid"] []
                  eq_refl eq_refl ltac:(discriminate)) as T.
    cbv zeta in T. destruct T as [_ T].
    assert (Sel : (">=1.0.0 <2.0.0" = "" \/ ">=1.0.0 <2.0.0" = "latest")
                  /\ hd_error
                       (sortVersions (L:=Masterminds_Semver) (S:=insertionSort)
                          (filter isValidVersion
                             ["1.0.0"; "2.0.0"; "1.1.0"; "invalid"]))
                     = Some "1.1.0"
                  \/ ">=1.0.0 <2.0.0" <> "" /\ ">=1.0.0 <2.0.0" <> "latest"
                     /\ maxSatisfying (L:=Masterminds_Semver)
                          (sortVersions (L:=Masterminds_Semver)
                             (S:=insertionSort)
                             (filter isValidVersion
                                ["1.0.0"; "2.0.0"; "1.1.0"; "invalid"]))
                          ">=1.0.0 <2.0.0" = "1.1.0"
                     /\ "1.1.0" <> "").
    { right. split; [discriminate|]. split; [discriminate|].
      split; [vm_compute; reflexivity|discriminate]. }
    destruct (T "1.1.0" Sel) as (A & _). exact A.
  - pose proof (InstallGop_checkout (L:=Masterminds_Semver)
                  (HL:=Masterminds_laws) (S:=insertionSort)
                  (HS:=insertionSort_contract)
                  (worldOfRun ">=1.0.0 <2.0.0"
                     ["1.0.0"; "2.0.0"; "1.1.0"; "invalid"]
                     ["main"; "feature-x"] "1.1.0")
                  ">=1.0.0 <2.0.0" ["1.0.0"; "2.0.0"; "1.1.0"; "invalid"] []
                  eq_refl eq_refl ltac:(discriminate)) as T.
    cbv zeta in T. destruct T as [_ T].
    assert (Sel : (">=1.0.0 <2.0.0" = "" \/ ">=1.0.0 <2.0.0" = "latest")
                  /\ hd_error
                       (sortVersions (L:=Masterminds_Semver) (S:=insertionSort)
                          (filter isValidVersion
                             ["1.0.0"; "2.0.0"; "1.1.0"; "invalid"]))
                     = Some "1.1.0"
                  \/ ">=1.0.0 <2.0.0" <> "" /\ ">=1.0.0 <2.0.0" <> "latest"
                     /\ maxSatisfying (L:=Masterminds_Semver)
                          (sortVersions (L:=Masterminds_Semver)
                             (S:=insertionSort)
                             (filter isValidVersion
                                ["1.0.0"; "2.0.0"; "1.1.0"; "invalid"]))
                          ">=1.0.0 <2.0.0" = "1.1.0"
                     /\ "1.1.0" <> "").
    { right. split; [discriminate|]. split; [discriminate|].
      split; [vm_compute; reflexivity|discriminate]. }
    destruct (T "1.1.0" Sel) as (_ & _ & B & _). exact B.
Defined.

(** C5.  In a run that read its spec and the tags: when the spec is
    empty or "latest", a run without valid tag stops with the panic of
    an index out of range, before any clone; otherwise the version
    selected is the first of the sorted valid versions, which is the
    canonical string of a version that none exceeds when a valid tag
    parses as it stands, and it is the version announced and cloned,
    with "v" before it. *)
Theorem InstallGop_latest {L : Semver} {HL : SemverLaws L}
    {S : GoSort} {HS : GoSortContract S}
    (w : World) (versionSpec : string) (tags : list string)
    (t0 : list event) :
  resolveVersionInput w = (t0, Val versionSpec) ->
  fetchTags w = Val tags ->
  versionSpec = "" \/ versionSpec = "latest" ->
  let validTags := filter isValidVersion tags in
  let validVersions := sortVersions validTags in
  (validTags = [] ->
   InstallGop w
   = ((t0 ++ [FetchTags])%list,
      Panic "runtime error: index out of range [0] with length 0"))
  /\ (validTags <> [] ->
      exists version,
        hd_error validVersions = Some version
        /\ selectVersion w versionSpec validVersions
           = ([Stdout ("::warning::No gop-version specified, using latest version: "
                       ++ version)], Val version)
        /\ (Getenv w "GITHUB_OUTPUT" <> "" ->
            In (Stdout ("Selected version " ++ version ++ " by spec "
                        ++ versionSpec)) (fst (InstallGop w))
            /\ In (CloneBranchOrTag ("v" ++ version)) (fst (InstallGop w)))
        /\ (parseVersions validTags <> [] ->
            exists m,
              In m (parseVersions validTags)
              /\ version = Version_String m
              /\ forall v, In v (parseVersions validTags) ->
                           (Compare v m <= 0)%Z)).
Proof.
  intros R T E validTags validVersions.
  destruct (sortVersions_valid tags) as [Hlen Hne].
  fold validTags in Hlen, Hne. fold validVersions in Hlen, Hne.
  split.
  - intros Hnil. unfold InstallGop. rewrite R, T. cbn [bind call].
    fold validTags. fold validVersions.
    rewrite Hnil in Hlen. destruct validVersions; [|discriminate Hlen].
    rewrite selectVersion_latest_none by assumption. reflexivity.
  - intros Hnn.
    destruct validVersions as [|version rest] eqn:EV.
    { destruct validTags; [contradiction|discriminate Hlen]. }
    exists version. split; [reflexivity|].
    assert (Sel : selectVersion w versionSpec (version :: rest)
                  = ([Stdout ("::warning::No gop-version specified, using latest version: "
                              ++ version)], Val version))
      by now apply selectVersion_latest.
    split; [exact Sel|]. split.
    + intros G.
      assert (V : version <> "") by (apply Hne; now left).
      pose proof (InstallGop_after_selection w versionSpec version tags t0
                    [Stdout ("::warning::No gop-version specified, using latest version: "
                             ++ version)] R T) as A.
      fold validTags in A. fold validVersions in A. rewrite EV in A.
      destruct (A Sel G) as (tail & -> & _).
      unfold checkoutOf. apply String.eqb_neq in V. rewrite V.
      cbn [negb fst snd].
      split; apply in_or_app; right; cbn; auto 10.
    + intros NE.
      destruct (sortVersions_head_highest validTags NE) as (m & Hm & Hh & Hmax).
      fold validVersions in Hh. rewrite EV in Hh. injection Hh as ->.
      exists m. auto.
Qed.

Lemma InstallGop_latest_witness :
  InstallGop (L:=Masterminds_Semver) (S:=insertionSort)
    (worldOfRun "" ["invalid"; "1.0"] ["main"] "")
  = ([FetchTags], Panic "runtime error: index out of range [0] with length 0")
  /\ exists version,
       hd_error (sortVersions (L:=Masterminds_Semver) (S:=insertionSort)
                   (filter (isValidVersion (L:=Masterminds_Semver))
                      ["1.0.0"; "2.0.0"; "1.1.0"; "invalid"]))
       = Some version
       /\ version = "2.0.0"
       /\ In (CloneBranchOrTag ("v" ++ version))
             (fst (InstallGop (L:=Masterminds_Semver) (S:=insertionSort)
                     (worldOfRun ""
                        ["1.0.0"; "2.0.0"; "1.1.0"; "invalid"]
                        ["main"] "2.0.0"))).
Proof.
  split.
  - apply (proj1 (InstallGop_latest (L:=Masterminds_Semver)
                    (HL:=Masterminds_laws) (S:=insertionSort)
                    (HS:=insertionSort_contract)
                    (worldOfRun "" ["invalid"; "1.0"] ["main"] "")
                    "" ["invalid"; "1.0"] [] eq_refl eq_refl
                    (or_introl eq_refl))).
    reflexivity.
  - destruct (proj2 (InstallGop_latest (L:=Masterminds_Semver)
                       (HL:=Masterminds_laws) (S:=insertionSort)
                       (HS:=insertionSort_contract)
                       (worldOfRun ""
                          ["1.0.0"; "2.0.0"; "1.1.0"; "invalid"]
                          ["main"] "2.0.0")
                       "" ["1.0.0"; "2.0.0"; "1.1.0"; "invalid"] []
                       eq_refl eq_refl (or_introl eq_refl))
                ltac:(discriminate))
      as (version & Hh & _ & Hc & _).
    exists version. split; [exact Hh|].
    split; [vm_compute in Hh; congruence|].
    apply Hc. discriminate.
Defined.

(** * Part IV: further properties of the code *)

(** ** Reading the remote references *)

(** X1. On the output of git, one line per reference, [fetchTags] gives
    the reference names in order without "refs/tags/" and one "v", and
    [fetchBranches] gives them without "refs/heads/". *)
Theorem fetch_lsRemote (refs : list (string * string)) :
  Forall wellFormedRef refs ->
  fetchTagsOf (Val (lsRemoteOutput refs))
  = Val (map (fun r => strings.TrimPrefix
                         (strings.TrimPrefix (snd r) "refs/tags/") "v") refs)
  /\ fetchBranchesOf (Val (lsRemoteOutput refs))
     = Val (map (fun r => strings.TrimPrefix (snd r) "refs/heads/") refs).
Proof.
  intros H. unfold fetchTagsOf, fetchBranchesOf.
  rewrite <- (MastermindsFacts.append_nil_r (lsRemoteOutput refs)).
  rewrite Split_lsRemoteOutput by assumption.
  split; rewrite refsLoop_wellFormed by assumption; reflexivity.
Qed.

Lemma fetch_lsRemote_witness :
  fetchTagsOf
    (Val (lsRemoteOutput
            [("8f2a", "refs/tags/v1.0.0"); ("77c1", "refs/tags/v1.1.0-rc.1")]))
  = Val ["1.0.0"; "1.1.0-rc.1"]
  /\ fetchBranchesOf
       (Val (lsRemoteOutput
               [("8f2a", "refs/heads/main"); ("77c1", "refs/heads/feature-x")]))
     = Val ["main"; "feature-x"].
Proof.
  split.
  - apply (proj1 (fetch_lsRemote
                    [("8f2a", "refs/tags/v1.0.0");
                     ("77c1", "refs/tags/v1.1.0-rc.1")]
                    ltac:(repeat constructor))).
  - apply (proj2 (fetch_lsRemote
                    [("8f2a", "refs/heads/main");
                     ("77c1", "refs/heads/feature-x")]
                    ltac:(repeat constructor))).
Defined.

(** X2. A line of the output that is not empty and holds no tab makes
    [fetchTags] and [fetchBranches] panic on [parts[1]], whatever comes
    after it. *)
Theorem fetch_line_without_tab (refs : list (string * string))
    (line rest : string) :
  Forall wellFormedRef refs ->
  line <> "" -> without tab line = true -> without lf line = true ->
  fetchTagsOf (Val (lsRemoteOutput refs ++ line ++ String lf rest))
  = Panic "runtime error: index out of range [1] with length 1"
  /\ fetchBranchesOf (Val (lsRemoteOutput refs ++ line ++ String lf rest))
     = Panic "runtime error: index out of range [1] with length 1".
Proof.
  intros H NE Ht Hl. unfold fetchTagsOf, fetchBranchesOf.
  rewrite Split_lsRemoteOutput, Split_app_sep by assumption.
  apply String.eqb_neq in NE.
  split; rewrite refsLoop_wellFormed by assumption;
    cbn [refsLoop]; rewrite NE, Split_without by assumption; reflexivity.
Qed.

Lemma fetch_line_without_tab_witness :
  fetchTagsOf
    (Val (lsRemoteOutput [("8f2a", "refs/tags/v1.0.0")]
          ++ "warning: redirecting" ++ String lf ""))
  = Panic "runtime error: index out of range [1] with length 1".
Proof.
  apply (proj1 (fetch_line_without_tab [("8f2a", "refs/tags/v1.0.0")]
                  "warning: redirecting" ""
                  ltac:(repeat constructor) ltac:(discriminate)
                  eq_refl eq_refl)).
Defined.

(** X3. [getGopVersion] gives the printed version without the white
    space around it and without one leading "v". *)
Theorem getGopVersion_trims (ws core ws' : string) :
  isAsciiSpaces ws = true -> isAsciiSpaces ws' = true ->
  isBounded core = true ->
  getGopVersionOf (Val (ws ++ core ++ ws'))
  = Val (strings.TrimPrefix core "v").
Proof.
  intros H1 H2 H3. unfold getGopVersionOf.
  now rewrite TrimSpace_bounded.
Qed.

Lemma getGopVersion_trims_witness :
  getGopVersionOf (Val ("" ++ "v1.11.0" ++ newline)) = Val "1.11.0".
Proof.
  apply (getGopVersion_trims "" "v1.11.0" newline); reflexivity.
Defined.

(** ** The version file *)

(** X4. In a file named gop.mod or gop.work whose content starts with
    "gop ", a dotted number and something the number cannot go on
    with, [parseGopVersionFile] finds that number. *)
Theorem parseGopVersionFile_finds (w : World) (path v rest : string) :
  filepath.Base path = "gop.mod" \/ filepath.Base path = "gop.work" ->
  ReadFile w path = Val ("gop " ++ v ++ rest) ->
  v <> "" -> isDotted isDigit v = true -> continues isDigit rest = false ->
  parseGopVersionFile w path = ([], Val v).
Proof.
  intros B R NE D K. unfold parseGopVersionFile. rewrite R. cbn [bind].
  assert (B' : String.eqb (filepath.Base path) "gop.mod"
               || String.eqb (filepath.Base path) "gop.work" = true)
    by (destruct B as [-> | ->]; reflexivity).
  rewrite B'. now rewrite gopVersionRegexp_complete.
Qed.

Lemma parseGopVersionFile_finds_witness :
  parseGopVersionFile
    (worldWithFile "" "src/gop.work" "src/gop.work"
       ("gop 1.2" ++ newline ++ "use ./..."))
    "src/gop.work"
  = ([], Val "1.2").
Proof.
  apply (parseGopVersionFile_finds
           (worldWithFile "" "src/gop.work" "src/gop.work"
              ("gop 1.2" ++ newline ++ "use ./..."))
           "src/gop.work" "1.2" (newline ++ "use ./..."));
    [now right|reflexivity|discriminate|reflexivity|reflexivity].
Defined.

(** X5. In a file of another name, a text between white space of one
    byte, which starts and ends with a graphic byte, is what
    [parseGopVersionFile] returns. *)
Theorem parseGopVersionFile_plain (w : World) (path ws core ws' : string) :
  filepath.Base path <> "gop.mod" -> filepath.Base path <> "gop.work" ->
  ReadFile w path = Val (ws ++ core ++ ws') ->
  isAsciiSpaces ws = true -> isAsciiSpaces ws' = true ->
  isBounded core = true ->
  parseGopVersionFile w path = ([], Val core).
Proof.
  intros B1 B2 R H1 H2 H3. unfold parseGopVersionFile. rewrite R.
  cbn [bind]. apply String.eqb_neq in B1, B2. rewrite B1, B2. cbn [orb].
  now rewrite TrimSpace_bounded.
Qed.

Lemma parseGopVersionFile_plain_witness :
  parseGopVersionFile
    (worldWithFile "" ".gop-version" ".gop-version"
       (" " ++ ">=1.1 <1.3" ++ newline))
    ".gop-version"
  = ([], Val ">=1.1 <1.3").
Proof.
  apply (parseGopVersionFile_plain
           (worldWithFile "" ".gop-version" ".gop-version"
              (" " ++ ">=1.1 <1.3" ++ newline))
           ".gop-version" " " ">=1.1 <1.3" newline);
    try reflexivity; intros H; vm_compute in H; discriminate H.
Defined.

(** ** The pure functions *)

(** X6. [contains] holds exactly of the elements of the slice. *)
Theorem contains_In (slice : list string) (item : string) :
  contains slice item = true <-> In item slice.
Proof.
  induction slice as [|s slice IH]; cbn; [split; [discriminate|tauto]|].
  destruct (String.eqb_spec s item) as [E|E].
  - split; auto.
  - rewrite IH. split; [auto|]. intros [H|H]; [contradiction|exact H].
Qed.

(** X7. What [maxSatisfying] returns is nothing, or the spec without
    its "v" found in the list, or the canonical string of a candidate
    that parses and satisfies the constraint the spec parses to; it
    returns nothing for the empty list. *)
Theorem maxSatisfying_sound {L : Semver} (versions : list string)
    (spec : string) :
  (maxSatisfying versions spec = ""
   \/ (maxSatisfying versions spec = strings.TrimPrefix spec "v"
       /\ In (strings.TrimPrefix spec "v") versions)
   \/ exists raw v c,
        In raw versions /\ NewVersion raw = Some v
        /\ NewConstraint spec = Some c /\ Check c v = true
        /\ maxSatisfying versions spec = Version_String v)
  /\ maxSatisfying [] spec = "".
Proof.
  split.
  - unfold maxSatisfying.
    destruct (exactMatch versions spec) as [x|] eqn:E.
    + apply exactMatch_Some in E as [-> E]. auto.
    + destruct (NewConstraint spec) as [c|]; [|auto].
      rewrite maxStep_fold.
      destruct (fold_left better (filter (Check c) (parseEach versions)) None)
        as [m|] eqn:F; [|auto].
      apply better_fold_In in F as [F|F]; [discriminate F|].
      apply filter_In in F as [F Hc].
      apply parseEach_In in F as (raw & Hraw & Hv).
      right. right. exists raw, m, c. auto.
  - unfold maxSatisfying. cbn. now destruct (NewConstraint spec).
Qed.

(** X8. [sortVersions] leaves a list in which no entry parses as it
    is, the empty list too; of a list in which every entry parses it
    leaves no entry: the result is the list of the canonical strings
    of the versions, in descending precedence. *)
Theorem sortVersions_all_or_nothing {L : Semver} {HL : SemverLaws L}
    {S : GoSort} {HS : GoSortContract S} (versions : list string) :
  ((forall x, In x versions -> NewVersion x = None) ->
   sortVersions versions = versions)
  /\ ((forall x, In x versions -> NewVersion x <> None) ->
      exists sorted,
        Permutation sorted (parseVersions versions)
        /\ sortVersions versions = map Version_String sorted
        /\ StronglySorted (fun a b => (Compare b a <= 0)%Z) sorted).
Proof.
  split.
  - intros H. unfold sortVersions.
    assert (E : parseVersions versions = []).
    { rewrite parseVersions_parseEach.
      destruct (parseEach versions) as [|v l] eqn:P; [reflexivity|].
      assert (I : In v (parseEach versions)) by (rewrite P; now left).
      apply parseEach_In in I as (raw & Hraw & Hv).
      rewrite (H raw Hraw) in Hv. discriminate Hv. }
    rewrite E.
    pose proof (sort_Sort_perm Version (sort_Reverse Collection_Less) [])
      as P.
    apply Permutation_sym, Permutation_nil in P. now rewrite P.
  - intros H.
    destruct (sortVersions_sorted versions)
      as (Hlen & _ & sorted & P & Hfirst & Hsorted).
    exists sorted. split; [exact P|]. split; [|exact Hsorted].
    rewrite parseVersions_parseEach, (parseEach_all versions H) in Hfirst.
    rewrite <- Hlen in Hfirst. now rewrite firstn_all in Hfirst.
Qed.

Lemma sortVersions_all_or_nothing_witness :
  sortVersions (L:=Masterminds_Semver) (S:=insertionSort) ["main"; "latest"]
  = ["main"; "latest"]
  /\ exists sorted,
       sortVersions (L:=Masterminds_Semver) (S:=insertionSort)
         ["1.0.0"; "v2.0"; "1.0.0-rc.1"]
       = map Masterminds.Version_String sorted
       /\ StronglySorted (fun a b => (Masterminds.Compare b a <= 0)%Z) sorted.
Proof.
  split.
  - apply (proj1 (sortVersions_all_or_nothing (L:=Masterminds_Semver)
                    (HL:=Masterminds_laws) (S:=insertionSort)
                    (HS:=insertionSort_contract) ["main"; "latest"])).
    intros x [<-|[<-|[]]]; reflexivity.
  - destruct (proj2 (sortVersions_all_or_nothing (L:=Masterminds_Semver)
                       (HL:=Masterminds_laws) (S:=insertionSort)
                       (HS:=insertionSort_contract)
                       ["1.0.0"; "v2.0"; "1.0.0-rc.1"]))
      as (sorted & _ & E & St).
    + intros x [<-|[<-|[<-|[]]]]; discriminate.
    + exists sorted. split; [exact E|exact St].
Defined.

(** ** The run *)



(** X10. Every event of a run of [InstallGop], with what had to hold
    for it to happen: the branches are fetched only for a spec that is
    neither empty nor "latest" and for which [maxSatisfying] found
    nothing among the sorted valid tags; an output is written and a
    reference cloned only if GITHUB_OUTPUT is set and a version or a
    branch was selected, and the reference is the one the selection
    gives; [install] runs only on the directory a successful clone
    returned; the installed version is queried only after [install]
    succeeded, and reported only when the query succeeded. *)
Theorem InstallGop_event_cases {L : Semver} {S : GoSort} (w : World)
    (e : event) :
  In e (fst (InstallGop w)) ->
  (exists line, e = Stdout line)
  \/ e = FetchTags
  \/ (e = FetchBranches
      /\ exists spec tags,
           snd (resolveVersionInput w) = Val spec
           /\ fetchTags w = Val tags
           /\ spec <> "" /\ spec <> "latest"
           /\ maxSatisfying (sortVersions (filter isValidVersion tags)) spec
              = "")
  \/ (Getenv w "GITHUB_OUTPUT" <> ""
      /\ exists spec tags version,
           snd (resolveVersionInput w) = Val spec
           /\ fetchTags w = Val tags
           /\ snd (selectVersion w spec
                     (sortVersions (filter isValidVersion tags)))
              = Val version
           /\ (e = SetOutput "gop-version-verified"
                     (snd (fst (checkoutOf spec version)))
               \/ e = CloneBranchOrTag (snd (checkoutOf spec version))
               \/ exists gopDir,
                    cloneBranchOrTag w (snd (checkoutOf spec version))
                    = Val gopDir
                    /\ (e = Install gopDir
                        \/ (install w gopDir = Val tt
                            /\ (e = GopVersion
                                \/ exists gopVersion,
                                     gopVersionFunc w = Val gopVersion
                                     /\ e = SetOutput "gop-version"
                                              gopVersion))))).
Proof.
  unfold InstallGop. rewrite fst_bind.
  intros H. apply in_app_or in H as [H|H].
  { left. eexists. eapply In_resolve_trace; [|exact H].
    apply surjective_pairing. }
  destruct (snd (resolveVersionInput w)) as [spec|err|msg] eqn:R;
    try destruct H.
  rewrite fst_bind in H. cbn [call fst snd] in H.
  apply in_app_or in H as [[<-|[]]|H]; [auto|].
  destruct (fetchTags w) as [tags|err|msg] eqn:T; try destruct H.
  rewrite fst_bind in H. apply in_app_or in H as [H|H].
  { apply selectVersion_events in H as [H|(-> & N1 & N2 & M)]; [auto|].
    right. right. left. split; [reflexivity|]. exists spec, tags. auto. }
  destruct (snd (selectVersion w spec _)) as [version|err|msg] eqn:Sel;
    try destruct H.
  rewrite fst_bind in H.
  unfold setOutput, info, warning, emit, panic in H.
  destruct (String.eqb_spec (Getenv w "GITHUB_OUTPUT") "") as [G|G];
    cbn [negb] in H.
  { destruct (negb (String.eqb version "")); cbn in H;
      destruct H as [<-|[]]; eauto. }
  assert (Block :
            (if negb (String.eqb version "")
             then
               ([Stdout ("Selected version " ++ version ++ " by spec " ++ spec)],
                Val tt) ;;
               ([SetOutput "gop-version-verified" "true"], Val tt) ;;
               ret ("v" ++ version)
             else
               ([Stdout ("::warning::" ++
                         "Unable to find a version that satisfies the version spec '"
                         ++ spec ++ "', trying branches...")], Val tt) ;;
               ([SetOutput "gop-version-verified" "false"], Val tt) ;;
               ret spec)
            = ([Stdout (fst (fst (checkoutOf spec version)));
                SetOutput "gop-version-verified"
                          (snd (fst (checkoutOf spec version)))],
               Val (snd (checkoutOf spec version)))).
  { unfold checkoutOf. destruct (negb (String.eqb version "")); reflexivity. }
  rewrite Block in H. cbn [fst snd] in H. clear Block.
  assert (Later : forall P : Prop, P ->
            (exists line : string, e = Stdout line)
            \/ e = FetchTags
            \/ (e = FetchBranches
                /\ exists spec0 tags0,
                     Val spec = Val spec0 /\ Val tags = Val tags0
                     /\ spec0 <> "" /\ spec0 <> "latest"
                     /\ maxSatisfying
                          (sortVersions (filter isValidVersion tags0)) spec0
                        = "")
            \/ (Getenv w "GITHUB_OUTPUT" <> "" /\ P)) by auto.
  apply in_app_or in H as [[<-|[<-|[]]]|H]; [eauto| |].
  { apply Later. exists spec, tags, version. repeat split; auto. }
  rewrite fst_bind in H. cbn [call fst snd] in H.
  apply in_app_or in H as [[<-|[]]|H].
  { apply Later. exists spec, tags, version. repeat split; auto. }
  destruct (cloneBranchOrTag w (snd (checkoutOf spec version)))
    as [gopDir|err|msg] eqn:C; try destruct H.
  rewrite fst_bind in H. cbn [call fst snd] in H.
  apply in_app_or in H as [[<-|[]]|H].
  { apply Later. exists spec, tags, version.
    repeat split; auto. right. right. exists gopDir. auto. }
  destruct (install w gopDir) as [[]|err|msg] eqn:I; try destruct H.
  rewrite fst_bind in H. apply in_app_or in H as [H|H].
  { destruct (negb (String.eqb version "")); [|destruct H].
    apply checkVersion_events in H as [H| ->]; [auto|].
    apply Later. exists spec, tags, version.
    repeat split; auto. right. right. exists gopDir. auto. }
  destruct (snd (if negb (String.eqb version "") return M unit
                 then checkVersion w version else ret tt)) as [[]|err|msg];
    try destruct H.
  rewrite fst_bind in H. cbn [call fst snd] in H.
  apply in_app_or in H as [[<-|[]]|H].
  { apply Later. exists spec, tags, version.
    repeat split; auto. right. right. exists gopDir. auto. }
  destruct (gopVersionFunc w) as [gopVersion|err|msg] eqn:Q; cbn in H;
    [|destruct H ..].
  destruct H as [<-|[]].
  apply Later. exists spec, tags, version.
  repeat split; auto. right. right. exists gopDir.
  split; [exact C|]. right. split; [exact I|]. right.
  exists gopVersion. auto.
Qed.

Lemma InstallGop_event_cases_witness :
  In FetchBranches
     (fst (InstallGop (L:=Masterminds_Semver) (S:=insertionSort)
             (worldOfRun "feature-x" ["1.0.0"; "2.0.0"; "1.1.0"; "invalid"]
                ["main"; "feature-x"] "2.0.0")))
  /\ maxSatisfying (L:=Masterminds_Semver)
       (sortVersions (L:=Masterminds_Semver) (S:=insertionSort)
          (filter (isValidVersion (L:=Masterminds_Semver))
             ["1.0.0"; "2.0.0"; "1.1.0"; "invalid"]))
       "feature-x" = "".
Proof.
  assert (H : In FetchBranches
                (fst (InstallGop (L:=Masterminds_Semver) (S:=insertionSort)
                        (worldOfRun "feature-x"
                           ["1.0.0"; "2.0.0"; "1.1.0"; "invalid"]
                           ["main"; "feature-x"] "2.0.0"))))
    by (vm_compute; auto 10).
  split; [exact H|].
  destruct (InstallGop_event_cases (L:=Masterminds_Semver) (S:=insertionSort)
              _ _ H)
    as [[line E]|[E|[[_ (spec & tags & R & T & _ & _ & Mx)]
       |[_ (spec & tags & version & _ & _ & _
            & [E|[E|(d & _ & [E|[_ [E|(gv & _ & E)]]])]])]]]];
    try discriminate E.
  vm_compute in R. injection R as <-.
  vm_compute in T. injection T as <-.
  exact Mx.
Defined.

(** X11. Without GITHUB_OUTPUT a run never returns without an error,
    and it does nothing but print lines and fetch the tags and the
    branches: nothing is cloned, installed or queried, and no output is
    written. *)
Theorem InstallGop_needs_GITHUB_OUTPUT {L : Semver} {S : GoSort}
    (w : World) :
  Getenv w "GITHUB_OUTPUT" = "" ->
  snd (InstallGop w) <> Val tt
  /\ forall e, In e (fst (InstallGop w)) ->
       (exists line, e = Stdout line) \/ e = FetchTags \/ e = FetchBranches.
Proof.
  intros G. split; [|exact (InstallGop_without_output w G)].
  unfold InstallGop. rewrite snd_bind.
  destruct (snd (resolveVersionInput w)) as [spec|err|msg]; try discriminate.
  rewrite snd_bind. cbn [call snd].
  destruct (fetchTags w) as [tags|err|msg]; try discriminate.
  cbv zeta. rewrite snd_bind.
  destruct (snd (selectVersion w spec _)) as [version|err|msg];
    try discriminate.
  rewrite snd_bind, checkout_block, G. cbn [String.eqb negb snd].
  discriminate.
Qed.

Lemma InstallGop_needs_GITHUB_OUTPUT_witness :
  snd (InstallGop (L:=Masterminds_Semver) (S:=insertionSort)
         (worldReporting (Val "1.0.0"))) <> Val tt.
Proof.
  exact (proj1 (InstallGop_needs_GITHUB_OUTPUT (L:=Masterminds_Semver)
                  (S:=insertionSort) (worldReporting (Val "1.0.0"))
                  eq_refl)).
Defined.

(** X12. When every valid tag parses as it is (a tag that does not
    start with "v" does), a version that [InstallGop] selects, from an
    empty or "latest" spec or through [maxSatisfying], is one of the
    sorted valid versions and the canonical string of a valid tag, and
    it parses: [checkVersion] cannot reject it as a spec. *)
Theorem selectVersion_canonical {L : Semver} {HL : SemverLaws L}
    {S : GoSort} {HS : GoSortContract S}
    (w : World) (versionSpec : string) (tags : list string)
    (t : list event) (version : string) :
  (forall x, In x tags -> isValidVersion x = true -> NewVersion x <> None) ->
  selectVersion w versionSpec (sortVersions (filter isValidVersion tags))
  = (t, Val version) ->
  version <> "" ->
  In version (sortVersions (filter isValidVersion tags))
  /\ (exists raw v,
        In raw tags /\ isValidVersion raw = true
        /\ NewVersion raw = Some v /\ version = Version_String v)
  /\ NewVersion version <> None.
Proof.
  intros Hp Sel V.
  assert (Hc : forall y, In y (sortVersions (filter isValidVersion tags)) ->
                 exists raw v,
                   In raw tags /\ isValidVersion raw = true
                   /\ NewVersion raw = Some v /\ y = Version_String v).
  { intros y Hy. apply sortVersions_canonical in Hy.
    - destruct Hy as (raw & v & Hr & Hv & ->).
      apply filter_In in Hr as [Hr Hval]. exists raw, v. auto.
    - intros x Hx. apply filter_In in Hx as [Hx Hval]. auto. }
  assert (Hin : In version (sortVersions (filter isValidVersion tags))).
  { remember (sortVersions (filter isValidVersion tags)) as validVersions
      eqn:EV.
    unfold selectVersion in Sel.
    destruct (String.eqb versionSpec "" || String.eqb versionSpec "latest").
    - destruct validVersions as [|v0 rest]; [discriminate Sel|].
      unfold warning, emit, bind, ret in Sel. injection Sel as _ <-.
      now left.
    - destruct (String.eqb_spec (maxSatisfying validVersions versionSpec) "")
        as [Mx|Mx].
      + exfalso.
        apply bind_Val_inv in Sel as (t1 & [] & t2 & _ & Sel & _).
        apply bind_Val_inv in Sel as (t3 & branches & t4 & _ & Sel & _).
        destruct (negb (contains branches versionSpec));
          [discriminate Sel|].
        unfold ret in Sel. injection Sel as _ Sel. congruence.
      + unfold ret in Sel. injection Sel as _ <-.
        apply maxSatisfying_In_canonical; [|exact Mx].
        intros x Hx. destruct (Hc x Hx) as (raw & v & _ & _ & Hv & ->).
        exists v. split; [now exists raw|reflexivity]. }
  split; [exact Hin|].
  destruct (Hc version Hin) as (raw & v & Hr & Hval & Hv & ->).
  split; [exists raw, v; auto|].
  destruct (String_parses_back v) as (v' & Hv' & _); [now exists raw|].
  rewrite Hv'. discriminate.
Qed.

Lemma selectVersion_canonical_witness :
  In "1.1.0"
     (sortVersions (L:=Masterminds_Semver) (S:=insertionSort)
        (filter (isValidVersion (L:=Masterminds_Semver))
           ["1.0.0"; "2.0.0"; "1.1.0"; "invalid"]))
  /\ NewVersion (Semver:=Masterminds_Semver) "1.1.0" <> None.
Proof.
  destruct (selectVersion_canonical (L:=Masterminds_Semver)
              (HL:=Masterminds_laws) (S:=insertionSort)
              (HS:=insertionSort_contract)
              (worldOfRun ">=1.0.0 <2.0.0"
                 ["1.0.0"; "2.0.0"; "1.1.0"; "invalid"]
                 ["main"; "feature-x"] "1.1.0")
              ">=1.0.0 <2.0.0" ["1.0.0"; "2.0.0"; "1.1.0"; "invalid"]
              [] "1.1.0") as (A & _ & B).
  - intros x [<-|[<-|[<-|[<-|[]]]]] Hv; discriminate.
  - vm_compute. reflexivity.
  - discriminate.
  - split; [exact A|exact B].
Defined.

(** X13. The errors a run of [InstallGop] can return: an error of
    reading the inputs, of a collaborator (fetching the tags or the
    branches, the clone, the installation, the query of the version),
    the error of a spec found neither among the tags nor the branches,
    or one of the three errors of [checkVersion]. *)
Theorem InstallGop_errors {L : Semver} {S : GoSort} (w : World)
    (e : error) :
  snd (InstallGop w) = Err e ->
  snd (resolveVersionInput w) = Err e
  \/ fetchTags w = Err e
  \/ fetchBranches w = Err e
  \/ (exists ref, cloneBranchOrTag w ref = Err e)
  \/ (exists gopDir, install w gopDir = Err e)
  \/ gopVersionFunc w = Err e
  \/ (exists versionSpec,
        snd (resolveVersionInput w) = Val versionSpec
        /\ e = Errorf ("no gop-version found that satisfies '" ++ versionSpec
                       ++ "' in branches or tags"))
  \/ (exists version, NewVersion version = None
        /\ e = Errorf ("invalid version spec: " ++ version))
  \/ (exists actualVersion,
        gopVersionFunc w = Val actualVersion
        /\ NewVersion actualVersion = None
        /\ e = Errorf ("invalid installed version: " ++ actualVersion))
  \/ (exists expected actual,
        Compare expected actual <> 0%Z
        /\ e = Errorf ("installed gop version " ++ Version_String actual
                       ++ " does not match expected version "
                       ++ Version_String expected)).
Proof.
  unfold InstallGop. rewrite snd_bind.
  destruct (snd (resolveVersionInput w)) as [spec|err|msg] eqn:R;
    [|intros H; injection H as ->; auto|discriminate].
  rewrite snd_bind. cbn [call snd].
  destruct (fetchTags w) as [tags|err|msg] eqn:T;
    [|intros H; injection H as ->; auto|discriminate].
  cbv zeta. rewrite snd_bind.
  destruct (snd (selectVersion w spec _)) as [version|err|msg] eqn:Sel;
    [| |discriminate].
  2:{ intros H. injection H as ->.
      unfold selectVersion in Sel.
      destruct (String.eqb spec "" || String.eqb spec "latest").
      - destruct (sortVersions _); discriminate Sel.
      - destruct (String.eqb (maxSatisfying _ spec) "");
          [|discriminate Sel].
        rewrite !snd_bind in Sel. cbn [warning emit call snd] in Sel.
        destruct (fetchBranches w) as [branches|err|msg];
          [|injection Sel as ->; auto|discriminate Sel].
        destruct (negb (contains branches spec)); [|discriminate Sel].
        cbn [fail snd] in Sel. injection Sel as <-.
        do 6 right. left. exists spec. auto. }
  rewrite snd_bind, checkout_block.
  destruct (negb (String.eqb (Getenv w "GITHUB_OUTPUT") "")) eqn:G;
    cbn [snd]; [|discriminate].
  rewrite snd_bind. cbn [call snd].
  destruct (cloneBranchOrTag w _) as [gopDir|err|msg] eqn:C;
    [|intros H; injection H as ->; eauto 10|discriminate].
  rewrite snd_bind. cbn [call snd].
  destruct (install w gopDir) as [[]|err|msg] eqn:I;
    [|intros H; injection H as ->; eauto 10|discriminate].
  rewrite snd_bind.
  destruct (snd (if negb (String.eqb version "") return M unit
                 then checkVersion w version else ret tt))
    as [[]|err|msg] eqn:K; [| |discriminate].
  2:{ intros H. injection H as ->.
      destruct (negb (String.eqb version "")); [|discriminate K].
      rewrite checkVersion_result in K.
      destruct (gopVersionFunc w) as [actualVersion|err|msg];
        [|injection K as ->; auto 10|discriminate K].
      destruct (NewVersion version) as [expected|] eqn:Pe.
      2:{ injection K as <-. do 7 right. left. exists version. auto. }
      destruct (NewVersion actualVersion) as [actual|] eqn:Pa.
      2:{ injection K as <-. do 8 right. left. exists actualVersion. auto. }
      destruct (Z.eqb_spec (Compare expected actual) 0) as [Eq|Ne];
        [discriminate K|].
      injection K as <-. do 9 right. exists expected, actual. auto. }
  rewrite snd_bind. cbn [call snd].
  destruct (gopVersionFunc w) as [gopVersion|err|msg];
    [|intros H; injection H as ->; auto 10|discriminate].
  unfold setOutput. rewrite G. discriminate.
Qed.

Lemma InstallGop_errors_witness :
  exists actual expected,
    snd (InstallGop (L:=Masterminds_Semver) (S:=insertionSort)
           (worldOfRun "1.0.0" ["1.0.0"; "2.0.0"; "1.1.0"; "invalid"]
              ["main"; "feature-x"] "2.0.0"))
    = Err (Errorf ("installed gop version "
                   ++ Masterminds.Version_String actual
                   ++ " does not match expected version "
                   ++ Masterminds.Version_String expected)).
Proof.
  assert (H : snd (InstallGop (L:=Masterminds_Semver) (S:=insertionSort)
                     (worldOfRun "1.0.0"
                        ["1.0.0"; "2.0.0"; "1.1.0"; "invalid"]
                        ["main"; "feature-x"] "2.0.0"))
              = Err (Errorf "installed gop version 2.0.0 does not match expected version 1.0.0"))
    by (vm_compute; reflexivity).
  destruct (InstallGop_errors (L:=Masterminds_Semver) (S:=insertionSort)
              _ _ H)
    as [E|[E|[E|[[ref E]|[[d E]|[E|[(s & _ & E)|[(v & _ & E)|[(a & _ & _ & E)
       |(expected & actual & _ & E)]]]]]]]]];
    try (vm_compute in E; discriminate E).
  exists actual, expected. rewrite H. f_equal. exact E.
Defined.

(** X14. The panics of a run of [InstallGop]: a panic of reading the
    inputs or of a collaborator, the index out of range of an empty or
    "latest" spec when no fetched tag is valid, or the panic of the
    first [setOutput] when GITHUB_OUTPUT is not set; the [setOutput] of
    "gop-version" never panics, since the run does not get that far
    without GITHUB_OUTPUT. *)
Theorem InstallGop_panics {L : Semver} {S : GoSort} (w : World)
    (msg : string) :
  snd (InstallGop w) = Panic msg ->
  snd (resolveVersionInput w) = Panic msg
  \/ fetchTags w = Panic msg
  \/ fetchBranches w = Panic msg
  \/ (exists ref, cloneBranchOrTag w ref = Panic msg)
  \/ (exists gopDir, install w gopDir = Panic msg)
  \/ gopVersionFunc w = Panic msg
  \/ (exists versionSpec tags,
        snd (resolveVersionInput w) = Val versionSpec
        /\ (versionSpec = "" \/ versionSpec = "latest")
        /\ fetchTags w = Val tags
        /\ sortVersions (filter isValidVersion tags) = []
        /\ msg = "runtime error: index out of range [0] with length 0")
  \/ (Getenv w "GITHUB_OUTPUT" = ""
      /\ exists value,
           msg = "GITHUB_OUTPUT is not set, cannot set output gop-version-verified="
                 ++ value).
Proof.
  unfold InstallGop. rewrite snd_bind.
  destruct (snd (resolveVersionInput w)) as [spec|err|m] eqn:R;
    [|discriminate|intros H; injection H as ->; auto].
  rewrite snd_bind. cbn [call snd].
  destruct (fetchTags w) as [tags|err|m] eqn:T;
    [|discriminate|intros H; injection H as ->; auto].
  cbv zeta. rewrite snd_bind.
  destruct (snd (selectVersion w spec _)) as [version|err|m] eqn:Sel;
    [|discriminate|].
  2:{ intros H. injection H as ->.
      unfold selectVersion in Sel.
      destruct (String.eqb_spec spec "") as [E1|E1];
        [|destruct (String.eqb_spec spec "latest") as [E2|E2]];
        cbn [orb] in Sel.
      - destruct (sortVersions _) eqn:V; [|discriminate Sel].
        injection Sel as <-. do 6 right. left. exists spec, tags. auto 10.
      - destruct (sortVersions _) eqn:V; [|discriminate Sel].
        injection Sel as <-. do 6 right. left. exists spec, tags. auto 10.
      - destruct (String.eqb (maxSatisfying _ spec) "");
          [|discriminate Sel].
        rewrite !snd_bind in Sel. cbn [warning emit call snd] in Sel.
        destruct (fetchBranches w) as [branches|err|m];
          [|discriminate Sel|injection Sel as ->; auto].
        destruct (negb (contains branches spec)); discriminate Sel. }
  rewrite snd_bind, checkout_block.
  destruct (String.eqb_spec (Getenv w "GITHUB_OUTPUT") "") as [G|G];
    cbn [negb snd].
  { intros H. injection H as <-. do 7 right. split; [exact G|].
    eexists. reflexivity. }
  rewrite snd_bind. cbn [call snd].
  destruct (cloneBranchOrTag w _) as [gopDir|err|m] eqn:C;
    [|discriminate|intros H; injection H as ->; eauto 8].
  rewrite snd_bind. cbn [call snd].
  destruct (install w gopDir) as [[]|err|m] eqn:I;
    [|discriminate|intros H; injection H as ->; eauto 8].
  rewrite snd_bind.
  destruct (snd (if negb (String.eqb version "") return M unit
                 then checkVersion w version else ret tt))
    as [[]|err|m] eqn:K; [|discriminate|].
  2:{ intros H. injection H as ->.
      destruct (negb (String.eqb version "")); [|discriminate K].
      rewrite checkVersion_result in K.
      destruct (gopVersionFunc w) as [actualVersion|err|m];
        [|discriminate K|injection K as ->; auto 10].
      destruct (NewVersion version) as [expected|]; [|discriminate K].
      destruct (NewVersion actualVersion) as [actual|]; [|discriminate K].
      destruct (Compare expected actual =? 0)%Z; discriminate K. }
  rewrite snd_bind. cbn [call snd].
  destruct (gopVersionFunc w) as [gopVersion|err|m];
    [|discriminate|intros H; injection H as ->; auto 10].
  unfold setOutput. apply String.eqb_neq in G. rewrite G. discriminate.
Qed.

Lemma InstallGop_panics_witness :
  snd (InstallGop (L:=Masterminds_Semver) (S:=insertionSort)
         (worldOfRun "latest" ["main"; "1.0"] ["main"] "1.0.0"))
  = Panic "runtime error: index out of range [0] with length 0"
  /\ sortVersions (L:=Masterminds_Semver) (S:=insertionSort)
       (filter (isValidVersion (L:=Masterminds_Semver)) ["main"; "1.0"])
     = [].
Proof.
  assert (H : snd (InstallGop (L:=Masterminds_Semver) (S:=insertionSort)
                     (worldOfRun "latest" ["main"; "1.0"] ["main"] "1.0.0"))
              = Panic "runtime error: index out of range [0] with length 0")
    by (vm_compute; reflexivity).
  split; [exact H|].
  destruct (InstallGop_panics (L:=Masterminds_Semver) (S:=insertionSort)
              _ _ H)
    as [E|[E|[E|[[ref E]|[[d E]|[E|[(s & tags & _ & _ & T & V & _)
       |(G & _)]]]]]]];
    try (vm_compute in E; discriminate E).
  - vm_compute in T. injection T as <-. exact V.
  - vm_compute in G. discriminate G.
Defined.

(** X15. A spec that [isValidVersionConstraint] rejects selects by
    exact match only: [maxSatisfying] returns the spec without its "v"
    when that is in the list, and nothing otherwise. *)
Theorem maxSatisfying_invalid_constraint {L : Semver}
    (versions : list string) (spec : string) :
  isValidVersionConstraint spec = false ->
  maxSatisfying versions spec
  = if contains versions (strings.TrimPrefix spec "v")
    then strings.TrimPrefix spec "v" else "".
Proof.
  unfold isValidVersionConstraint, maxSatisfying. intros H.
  destruct (NewConstraint spec) as [c|]; [discriminate H|].
  destruct (exactMatch versions spec) as [x|] eqn:E.
  - apply exactMatch_Some in E as [-> E].
    destruct (contains versions (strings.TrimPrefix spec "v")) eqn:C;
      [reflexivity|].
    assert (C' : contains versions (strings.TrimPrefix spec "v") = true).
    { clear C. induction versions as [|s l IH]; [destruct E|]. cbn.
      destruct (String.eqb_spec s (strings.TrimPrefix spec "v")) as [Q|Q];
        [reflexivity|].
      destruct E as [E|E]; [contradiction|auto]. }
    congruence.
  - destruct (contains versions (strings.TrimPrefix spec "v")) eqn:C;
      [|reflexivity].
    assert (I : In (strings.TrimPrefix spec "v") versions).
    { clear E. induction versions as [|s l IH]; [discriminate C|].
      cbn in C.
      destruct (String.eqb_spec s (strings.TrimPrefix spec "v")) as [Q|Q];
        [now left|right; auto]. }
    apply exactMatch_In in I. congruence.
Qed.

Lemma maxSatisfying_invalid_constraint_witness :
  maxSatisfying (L:=Masterminds_Semver) ["1.0.0"; "main"] "main" = "main".
Proof.
  exact (maxSatisfying_invalid_constraint (L:=Masterminds_Semver)
           ["1.0.0"; "main"] "main" eq_refl).
Defined.
